(** * WebSocketService: reconnecting transport client and event router

    A shallow embedding of [class WebSocketService] of
    [src/services/api.ts] (the connection manager and the event router
    behind the [useWebSocket] hook), and the properties of its
    subscription table, dispatch loop and reconnect policy.

    Modelling conventions.
    - JavaScript runs one handler at a time; every method and every
      transport/timer handler is a function from one service state to
      the next, returning [Ok] or [Throw] (an uncaught exception).
    - Function objects, [WebSocket] objects and arrays have identity:
      callbacks and handles are numbers, and the arrays held by
      [this.listeners] live in a store [heap] addressed by location,
      so that [push] (in place) and [filter] (a fresh array) are told
      apart, as they are in the source.
    - [this.listeners] is a plain object used as a map from event name
      to array; it is a [gmap string loc] over its own properties.
      Event names are taken not to be among the property names every
      object inherits from [Object.prototype] ([constructor],
      [toString], ...), for which the lookup would find a function and
      [on], [off] and [emit] would throw a [TypeError]; [inherited]
      lists those names and [finds_inherited] tells when a lookup
      finds one.
    - What the host does is explicit: [new WebSocket] succeeds or throws,
      [JSON.stringify] returns text or throws, and a callback runs a
      script of calls on the service which may depend on its argument
      and on everything it has seen before.

    Around the service, the development also covers the hook
    [useWebSocket] of [hooks/useWebSocket.ts] (module [useWebSocket]),
    the task handlers that [App] subscribes (module [App]) and the input
    handlers of [components/ChatInterface.tsx] (module [ChatInterface]). *)

From Stdlib Require Import ZArith String List.
From stdpp Require Import base tactics option list gmap strings.

Local Open Scope string_scope.
Local Open Scope list_scope.
Local Open Scope Z_scope.

(** ** Data *)

(** Identity of a callback function object ([cb !== callback] compares
    these). *)
Abbreviation cbid := nat (only parsing).
(** Identity of a [WebSocket] object created by [new WebSocket]. *)
Abbreviation handle := nat (only parsing).
(** Location of an array object in the store. *)
Abbreviation loc := nat (only parsing).

(** The [any] values that travel through [emit] and [send]. *)
Inductive value : Type :=
  | Null
  | Text (s : string)
  | Ref (n : nat).

(** [WebSocket.readyState]. *)
Inductive ReadyState : Type := CONNECTING | OPEN | CLOSING | CLOSED.

Global Instance ReadyState_eq_dec : EqDecision ReadyState.
Proof. solve_decision. Defined.

(** One call a callback makes on the service (its public methods), or
    an exception it raises itself. *)
Inductive cmd : Type :=
  | COn (e : string) (cb : cbid)
  | COff (e : string) (cb : cbid)
  | CSend (m : value)
  | CConnect
  | CDisconnect
  | CThrow.

(** One invocation [callback(data)] made by [emit]. *)
Definition invocation : Type := cbid * value.

(** The host environment of the service. *)
Record Host : Type := mkHost {
  (** [JSON.stringify(message)]: the text, or [None] when it throws. *)
  JSON_stringify : value -> option string;
  (** whether [new WebSocket(wsUrl)] returns an object ([true]) or
      throws ([false]); the URL is fixed for the life of the page. *)
  new_WebSocket_ok : bool;
  (** what [callback(data)] does, given the invocations that happened
      before it: the calls it makes on the service, in order. *)
  callback : cbid -> value -> list invocation -> list cmd
}.

(** The private fields of the service, the objects it refers to, and
    what it has done so far. *)
Record State : Type := mkState {
  (** [this.ws] *)
  ws : option handle;
  (** [this.listeners]: event name to array *)
  listeners : gmap string loc;
  (** the arrays of callbacks, by location *)
  heap : list (list cbid);
  (** [this.reconnectAttempts] *)
  reconnectAttempts : Z;
  (** every [WebSocket] created so far, by handle, with its readyState *)
  sockets : list ReadyState;
  (** delays of the [setTimeout] timers that have not fired yet *)
  timers : list Z;
  (** delays of all the reconnects ever scheduled, oldest first *)
  scheduled : list Z;
  (** every callback invocation so far, oldest first *)
  calls : list invocation;
  (** every frame written to a transport so far *)
  wire : list (handle * string)
}.

(** [private maxReconnectAttempts = 5] and [private reconnectDelay = 1000];
    neither is ever assigned again. *)
Definition maxReconnectAttempts : Z := 5.
Definition reconnectDelay : Z := 1000.

(** The service right after [new WebSocketService()]. *)
Definition init : State :=
  mkState None ∅ [] 0 [] [] [] [] [].

Definition set_ws (v : option handle) (s : State) : State :=
  mkState v (listeners s) (heap s) (reconnectAttempts s) (sockets s)
          (timers s) (scheduled s) (calls s) (wire s).
Definition set_listeners (v : gmap string loc) (s : State) : State :=
  mkState (ws s) v (heap s) (reconnectAttempts s) (sockets s)
          (timers s) (scheduled s) (calls s) (wire s).
Definition set_heap (v : list (list cbid)) (s : State) : State :=
  mkState (ws s) (listeners s) v (reconnectAttempts s) (sockets s)
          (timers s) (scheduled s) (calls s) (wire s).
Definition set_reconnectAttempts (v : Z) (s : State) : State :=
  mkState (ws s) (listeners s) (heap s) v (sockets s)
          (timers s) (scheduled s) (calls s) (wire s).
Definition set_sockets (v : list ReadyState) (s : State) : State :=
  mkState (ws s) (listeners s) (heap s) (reconnectAttempts s) v
          (timers s) (scheduled s) (calls s) (wire s).
Definition set_timers (v : list Z) (s : State) : State :=
  mkState (ws s) (listeners s) (heap s) (reconnectAttempts s) (sockets s)
          v (scheduled s) (calls s) (wire s).
Definition set_scheduled (v : list Z) (s : State) : State :=
  mkState (ws s) (listeners s) (heap s) (reconnectAttempts s) (sockets s)
          (timers s) v (calls s) (wire s).
Definition set_calls (v : list invocation) (s : State) : State :=
  mkState (ws s) (listeners s) (heap s) (reconnectAttempts s) (sockets s)
          (timers s) (scheduled s) v (wire s).
Definition set_wire (v : list (handle * string)) (s : State) : State :=
  mkState (ws s) (listeners s) (heap s) (reconnectAttempts s) (sockets s)
          (timers s) (scheduled s) (calls s) v.

(** How a method or handler ends: normally, or by an exception that
    nothing caught; either way the state it leaves behind stays. *)
Inductive res : Type :=
  | Ok (s : State)
  | Throw (s : State).

Definition state_of (r : res) : State :=
  match r with Ok s => s | Throw s => s end.

(** Sequencing: the rest runs only if the first part returned. *)
Definition andThen (r : res) (k : State -> res) : res :=
  match r with
  | Ok s => k s
  | Throw s => Throw s
  end.

Notation "r >>> k" := (andThen r k) (at level 61, left associativity).

(** The array [this.listeners[event]] as it is now, [[]] when the
    property is absent. *)
Definition subscribers (e : string) (s : State) : list cbid :=
  match listeners s !! e with
  | Some l => default [] (heap s !! l)
  | None => []
  end.

(** The property names a plain object inherits from [Object.prototype].
    For such a name that is not a key of the table itself,
    [this.listeners[event]] finds the inherited member, which is truthy
    and not an array, and the method call that follows ([push], [filter],
    [forEach]) throws a [TypeError]. *)
Definition Object_prototype_names : list string :=
  ["constructor"; "hasOwnProperty"; "isPrototypeOf"; "propertyIsEnumerable";
   "toLocaleString"; "toString"; "valueOf"; "__proto__";
   "__defineGetter__"; "__defineSetter__"; "__lookupGetter__"; "__lookupSetter__"].

Definition inherited (e : string) : bool :=
  existsb (String.eqb e) Object_prototype_names.

(** The lookup [this.listeners[event]] finds an inherited member: the
    table has no key of its own for the name. *)
Definition finds_inherited (e : string) (s : State) : bool :=
  match listeners s !! e with
  | Some _ => false
  | None => inherited e
  end.

(** ** The service *)

Section Service.

Variable host : Host.

(** [ws.close()]: starts the closing handshake of a socket that is
    connecting or open, does nothing to one closing or closed. The close
    event comes later, from the event loop. *)
Definition ws_close (h : handle) (s : State) : State :=
  match sockets s !! h with
  | Some CONNECTING | Some OPEN => set_sockets (<[h := CLOSING]> (sockets s)) s
  | _ => s
  end.

(** [attemptReconnect()] *)
Definition attemptReconnect (s : State) : State :=
  if reconnectAttempts s <? maxReconnectAttempts then
    let s1 := set_reconnectAttempts (reconnectAttempts s + 1) s in
    let delay := reconnectDelay * reconnectAttempts s1 in
    set_scheduled (scheduled s1 ++ [delay]) (set_timers (timers s1 ++ [delay]) s1)
  else s.

(** [connect()]: the four handlers it installs are [onopen], [onmessage],
    [onclose] and [onerror] below, the same for every socket. *)
Definition connect (s : State) : State :=
  if new_WebSocket_ok host then
    set_ws (Some (length (sockets s))) (set_sockets (sockets s ++ [CONNECTING]) s)
  else attemptReconnect s.

(** [disconnect()] *)
Definition disconnect (s : State) : State :=
  let s1 :=
    match ws s with
    | Some h => set_ws None (ws_close h s)
    | None => s
    end in
  set_listeners ∅ s1.

(** [on(event, callback)]: a fresh empty array when the property is
    absent, then [push] on the array the property holds. This is the
    call for an event name whose lookup does not find an inherited
    member ([finds_inherited]); the properties below that concern such
    names say so. *)
Definition on (e : string) (cb : cbid) (s : State) : State :=
  let s1 :=
    match listeners s !! e with
    | None =>
        set_listeners (<[e := length (heap s)]> (listeners s))
                      (set_heap (heap s ++ [[]]) s)
    | Some _ => s
    end in
  match listeners s1 !! e with
  | Some l => set_heap (alter (λ arr, arr ++ [cb]) l (heap s1)) s1
  | None => s1
  end.

(** [off(event, callback)]: [filter] builds a new array, which replaces
    the old one in the table; the old array object is left as it was.
    As for [on], this is the call for an event name whose lookup does
    not find an inherited member. *)
Definition off (e : string) (cb : cbid) (s : State) : State :=
  match listeners s !! e with
  | Some l =>
      let arr := default [] (heap s !! l) in
      set_listeners (<[e := length (heap s)]> (listeners s))
        (set_heap (heap s ++ [filter (λ c, c ≠ cb) arr]) s)
  | None => s
  end.

(** [send(message)] *)
Definition send (m : value) (s : State) : res :=
  match ws s with
  | Some h =>
      if decide (sockets s !! h = Some OPEN) then
        match JSON_stringify host m with
        | Some text => Ok (set_wire (wire s ++ [(h, text)]) s)
        | None => Throw s
        end
      else Ok s
  | None => Ok s
  end.

(** One call made by a callback. *)
Definition run_cmd (c : cmd) (s : State) : res :=
  match c with
  | COn e cb => Ok (on e cb s)
  | COff e cb => Ok (off e cb s)
  | CSend m => send m s
  | CConnect => Ok (connect s)
  | CDisconnect => Ok (disconnect s)
  | CThrow => Throw s
  end.

Fixpoint run_script (cs : list cmd) (s : State) : res :=
  match cs with
  | [] => Ok s
  | c :: cs' => run_cmd c s >>> run_script cs'
  end.

(** [callback(data)] *)
Definition invoke (cb : cbid) (d : value) (s : State) : res :=
  run_script (callback host cb d (calls s)) (set_calls (calls s ++ [(cb, d)]) s).

(** [Array.prototype.forEach] on the array at [l]: [n] indices are left
    to visit, starting at [k]; each is read from the array as it is when
    its turn comes, and skipped if the array has no such index. *)
Fixpoint forEach_from (n : nat) (k : nat) (l : loc) (d : value) (s : State) : res :=
  match n with
  | O => Ok s
  | S n' =>
      match heap s !! l ≫= (λ arr, arr !! k) with
      | Some cb => invoke cb d s >>> forEach_from n' (S k) l d
      | None => forEach_from n' (S k) l d s
      end
  end.

(** [arr.forEach(callback => callback(data))]: the length is read once,
    before the first call. *)
Definition forEach (l : loc) (d : value) (s : State) : res :=
  forEach_from (length (default [] (heap s !! l))) 0 l d s.

(** [emit(event, data)], for an event name whose lookup does not find
    an inherited member. *)
Definition emit (e : string) (d : value) (s : State) : res :=
  match listeners s !! e with
  | Some l => forEach l d s
  | None => Ok s
  end.

(** [ws.onopen] *)
Definition onopen (s : State) : res :=
  emit "connected" Null (set_reconnectAttempts 0 s).

(** [ws.onmessage]: [frame] is what [JSON.parse(event.data)] gives, the
    pair of [message.type] and [message.data], or [None] when parsing
    throws; the [catch] also swallows what a subscriber throws. *)
Definition onmessage (frame : option (string * value)) (s : State) : res :=
  match frame with
  | Some (ty, d) => Ok (state_of (emit ty d s))
  | None => Ok s
  end.

(** [ws.onclose] *)
Definition onclose (s : State) : res :=
  emit "disconnected" Null s >>> (λ s', Ok (attemptReconnect s')).

(** [ws.onerror] *)
Definition onerror (err : value) (s : State) : res :=
  emit "error" err s.

End Service.

(** ** The event loop *)

(** What can happen to the service: a call of one of its public methods
    by the application, or a transport or timer event delivered by the
    event loop. *)
Inductive event : Type :=
  | ApiConnect
  | ApiDisconnect
  | ApiOn (e : string) (cb : cbid)
  | ApiOff (e : string) (cb : cbid)
  | ApiSend (m : value)
  | EvOpen (h : handle)
  | EvMessage (h : handle) (frame : option (string * value))
  | EvError (h : handle) (err : value)
  | EvClose (h : handle)
  | EvTimer (i : nat).

Definition is_open (ev : event) : bool :=
  match ev with EvOpen _ => true | _ => false end.

Definition is_connect_call (ev : event) : bool :=
  match ev with ApiConnect => true | _ => false end.

Section EventLoop.

Variable host : Host.

(** The handler run for an event, [None] when the event cannot happen in
    this state: a socket opens once, while connecting; it delivers
    messages while open; it closes once; a timer fires once. *)
Definition handle_event (ev : event) (s : State) : option res :=
  match ev with
  | ApiConnect => Some (Ok (connect host s))
  | ApiDisconnect => Some (Ok (disconnect s))
  | ApiOn e cb => Some (Ok (on e cb s))
  | ApiOff e cb => Some (Ok (off e cb s))
  | ApiSend m => Some (send host m s)
  | EvOpen h =>
      match sockets s !! h with
      | Some CONNECTING =>
          Some (onopen host (set_sockets (<[h := OPEN]> (sockets s)) s))
      | _ => None
      end
  | EvMessage h frame =>
      match sockets s !! h with
      | Some OPEN => Some (onmessage host frame s)
      | _ => None
      end
  | EvError h err =>
      match sockets s !! h with
      | Some _ => Some (onerror host err s)
      | None => None
      end
  | EvClose h =>
      match sockets s !! h with
      | Some CLOSED | None => None
      | Some _ => Some (onclose host (set_sockets (<[h := CLOSED]> (sockets s)) s))
      end
  | EvTimer i =>
      match timers s !! i with
      | Some _ => Some (Ok (connect host (set_timers (delete i (timers s)) s)))
      | None => None
      end
  end.

(** Running a sequence of events; an exception nobody caught ends the
    handler, not the page. *)
Fixpoint exec (tr : list event) (s : State) : option State :=
  match tr with
  | [] => Some s
  | ev :: tr' =>
      match handle_event ev s with
      | Some r => exec tr' (state_of r)
      | None => None
      end
  end.

(** The states the service can be in. *)
Definition reachable (s : State) : Prop :=
  ∃ tr, exec tr init = Some s.

End EventLoop.

(** ** Behaviour of callbacks *)

(** A call that cannot end in an exception: it is not a [throw]; if it
    is a [send], its message can be serialised; if it is an [on] or an
    [off], its event name is not one that every object inherits. *)
Definition calm (host : Host) (c : cmd) : bool :=
  match c with
  | CThrow => false
  | CSend m => bool_decide (is_Some (JSON_stringify host m))
  | COn e _ | COff e _ => negb (inherited e)
  | _ => true
  end.

(** A callback that returns normally whenever it is invoked. *)
Definition polite (host : Host) (cb : cbid) : Prop :=
  ∀ d hist, forallb (calm host) (callback host cb d hist) = true.

(** A call that leaves the array of [e] in the table: not
    [off(e, _)], which replaces it by a filtered copy, and not
    [disconnect()], which replaces the table. *)
Definition keeps_list (e : string) (c : cmd) : bool :=
  match c with
  | COff e' _ => negb (String.eqb e' e)
  | CDisconnect => false
  | _ => true
  end.

Definition is_connect (c : cmd) : bool :=
  match c with CConnect => true | _ => false end.

(** ** The subscription table as the specification describes it *)

(** A call of [on] or [off] by the application. *)
Inductive op : Type :=
  | On (e : string) (cb : cbid)
  | Off (e : string) (cb : cbid).

Definition apply_op (o : op) (s : State) : State :=
  match o with
  | On e cb => on e cb s
  | Off e cb => off e cb s
  end.

Definition op_event (o : op) : string :=
  match o with On e _ | Off e _ => e end.

(** All entries equal to [cb] removed, the others kept in order. *)
Fixpoint spec_remove_all (cb : cbid) (l : list cbid) : list cbid :=
  match l with
  | [] => []
  | c :: l' => if Nat.eqb c cb then spec_remove_all cb l' else c :: spec_remove_all cb l'
  end.

(** The subscriber list of [e] after one more call: [on] appends, with no
    deduplication; [off] removes every entry equal to the callback; calls
    for other events leave it alone. *)
Definition spec_step (e : string) (subs : list cbid) (o : op) : list cbid :=
  match o with
  | On e' cb => if String.eqb e' e then subs ++ [cb] else subs
  | Off e' cb => if String.eqb e' e then spec_remove_all cb subs else subs
  end.

(** The callbacks currently subscribed to [e] after the calls [ops] on a
    new router, in subscription order. *)
Definition spec_subscribed (ops : list op) (e : string) : list cbid :=
  fold_left (spec_step e) ops [].

(** ** Relations and invariants used in the proofs *)

(** Every array object present before is still there, with the same
    elements at the same indices, possibly followed by more: [push] is
    the only mutation the source performs on an array. *)
Definition grows (s s' : State) : Prop :=
  ∀ l arr, heap s !! l = Some arr → ∃ ext, heap s' !! l = Some (arr ++ ext).

(** Every name of the table holds an array of the store, and no two
    names hold the same array. *)
Definition wf (s : State) : Prop :=
  (∀ e l, listeners s !! e = Some l → (l < length (heap s))%nat)
  ∧ (∀ e1 e2 l, listeners s !! e1 = Some l → listeners s !! e2 = Some l → e1 = e2).

(** The fields of the retry policy. *)
Definition same_retry (s s' : State) : Prop :=
  reconnectAttempts s' = reconnectAttempts s
  ∧ scheduled s' = scheduled s
  ∧ timers s' = timers s.

(** Between two opens, each reconnect scheduled raises the counter by
    one, and nothing lowers it. *)
Definition stall (s s' : State) : Prop :=
  Z.of_nat (length (scheduled s')) - reconnectAttempts s'
  = Z.of_nat (length (scheduled s)) - reconnectAttempts s
  ∧ scheduled s `prefix_of` scheduled s'
  ∧ (reconnectAttempts s' ≤ maxReconnectAttempts ∨ reconnectAttempts s' = reconnectAttempts s).

(** No socket is waiting to open. *)
Definition no_connecting (s : State) : Prop := CONNECTING ∉ sockets s.

(** Methods called by callbacks other than [connect] create no socket and
    bring none back to [CONNECTING]. *)
Definition settled (s s' : State) : Prop :=
  no_connecting s → no_connecting s'.

(** When [new WebSocket] throws, no socket ever exists. *)
Definition socketless (host : Host) (s s' : State) : Prop :=
  new_WebSocket_ok host = false → sockets s = [] → sockets s' = [].

(** The counter is within its range. *)
Definition bounded (s : State) : Prop :=
  0 ≤ reconnectAttempts s ≤ maxReconnectAttempts.

(** What holds in every state of the service. *)
Definition Inv (host : Host) (s : State) : Prop :=
  bounded s ∧ (new_WebSocket_ok host = false → sockets s = []).

(** The policy has given up and nothing is in flight: five attempts used,
    no timer pending, no socket waiting to open. *)
Definition dormant (s : State) : Prop :=
  reconnectAttempts s = maxReconnectAttempts
  ∧ timers s = []
  ∧ no_connecting s.

(** The sockets that have not closed yet. *)
Definition live_handles (s : State) : nat :=
  length (filter (λ st, st ≠ CLOSED) (sockets s)).

(** A call of [on] by the application. *)
Definition is_on_call (ev : event) : bool :=
  match ev with ApiOn _ _ => true | _ => false end.

(** ** Sample hosts, states and executions *)

(** Callbacks that only record their argument; [new WebSocket] works. *)
Definition plain_host : Host :=
  mkHost (λ _, Some "{}") true (λ _ _ _, []).

(** Callbacks that change the table while they are being dispatched:
    callback 0 unsubscribes itself and callback 1 from [update],
    callback 2 subscribes callback 3 to [update]. *)
Definition reentrant_host : Host :=
  mkHost (λ _, Some "{}") true
    (λ cb _ _,
       match cb with
       | 0%nat => [COff "update" 0%nat; COff "update" 1%nat]
       | 2%nat => [COn "update" 3%nat]
       | _ => []
       end).

(** A page whose transport URL is rejected by [new WebSocket]. *)
Definition bad_url_host : Host :=
  mkHost (λ _, Some "{}") false (λ _ _ _, []).

(** The service after [connect()] and the open event of its socket. *)
Definition connected_state : State :=
  default init (exec plain_host [ApiConnect; EvOpen 0%nat] init).

(** Calls that leave callback 0 subscribed twice to [update] and
    callback 1 once; callback 2 was subscribed and removed. *)
Definition sample_ops : list op :=
  [On "update" 0%nat; On "update" 1%nat; On "update" 2%nat;
   Off "update" 2%nat; On "update" 0%nat; On "other" 5%nat].

(** What may still happen after [disconnect()], short of a call of [on]. *)
Definition stray_events : list event :=
  [EvClose 0%nat; ApiOff "update" 1%nat; EvTimer 0%nat; EvOpen 1%nat;
   EvMessage 1%nat (Some ("update", Text "t1"))].

(** Five reconnects that all fail, and the close of the last socket. *)
Definition six_failures : list event :=
  [EvClose 0%nat; EvTimer 0%nat; EvClose 1%nat; EvTimer 0%nat;
   EvClose 2%nat; EvTimer 0%nat; EvClose 3%nat; EvTimer 0%nat;
   EvClose 4%nat; EvTimer 0%nat; EvClose 5%nat].

(** The service after those. *)
Definition gave_up_state : State :=
  default init (exec plain_host six_failures connected_state).

(** Calls and events that involve no [connect()]. *)
Definition idle_events : list event :=
  [ApiSend (Text "ping"); ApiOn "update" 1%nat; EvError 5%nat (Ref 0);
   ApiDisconnect; ApiOff "update" 1%nat].

(** A page with a rejected URL retries on timers alone, five times. *)
Definition bad_url_retries : list event :=
  [ApiConnect; EvTimer 0%nat; EvTimer 0%nat; EvTimer 0%nat; EvTimer 0%nat;
   EvTimer 0%nat].

(** Two subscribers and a socket that is connecting. *)
Definition before_open : State :=
  default init
    (exec plain_host
       [ApiOn "connected" 1%nat; ApiOn "disconnected" 2%nat; ApiConnect] init).

(** ** Further invariants of the service *)

(** The delays [attemptReconnect] can compute. *)
Definition backoff_delays : list Z := [1000; 2000; 3000; 4000; 5000].

(** [this.ws], when set, is the socket created last. *)
Definition ws_is_latest (s : State) : Prop :=
  ∀ h, ws s = Some h → S h = length (sockets s).

(** Every frame on the wire went to a socket that exists and is past
    [CONNECTING]. *)
Definition wire_opened (s : State) : Prop :=
  ∀ h text, (h, text) ∈ wire s →
    ∃ st, sockets s !! h = Some st ∧ st ≠ CONNECTING.

(** What holds besides [Inv] in every state of the service. *)
Definition consistent (s : State) : Prop :=
  wf s
  ∧ ws_is_latest s
  ∧ bounded s
  ∧ Forall (λ d, d ∈ backoff_delays) (scheduled s)
  ∧ timers s `sublist_of` scheduled s
  ∧ wire_opened s.

(** A script that ends in an exception wherever it is run: a [throw]
    preceded by calls that return. *)
Fixpoint throwing (host : Host) (cs : list cmd) : bool :=
  match cs with
  | [] => false
  | CThrow :: _ => true
  | c :: cs' => calm host c && throwing host cs'
  end.

Definition is_throw (c : cmd) : bool :=
  match c with CThrow => true | _ => false end.

(** A callback that throws whenever it is invoked with [d]. *)
Definition rude (host : Host) (cb : cbid) (d : value) : Prop :=
  ∀ hist, throwing host (callback host cb d hist) = true.

(** ** The hook [useWebSocket] *)

(** [hooks/useWebSocket.ts]. The service is the module-level singleton
    [webSocketService]; the hook adds its own table [eventListeners] and
    the flag [isConnected]. *)
Module useWebSocket.

(** The singleton and [eventListeners.current]. The arrays of this
    table are never iterated nor shared, so they are kept by value. *)
Record Hook : Type := mkHook {
  service : State;
  eventListeners : gmap string (list cbid)
}.

(** The effect run on mount: [connect()], then the two internal
    listeners [handleConnect] and [handleDisconnect]. *)
Definition effect (host : Host) (handleConnect handleDisconnect : cbid)
    (s : State) : State :=
  on "disconnected" handleDisconnect
    (on "connected" handleConnect (connect host s)).

(** What the effect returns, run on unmount. *)
Definition cleanup (handleConnect handleDisconnect : cbid) (s : State) : State :=
  disconnect (off "disconnected" handleDisconnect
                (off "connected" handleConnect s)).

(** [subscribe(event, callback)] *)
Definition subscribe (e : string) (cb : cbid) (hk : Hook) : Hook :=
  let t := eventListeners hk in
  let t1 := match t !! e with
            | None => <[e := []]> t
            | Some _ => t
            end in
  mkHook (on e cb (service hk)) (alter (λ arr, arr ++ [cb]) e t1).

(** [unsubscribe(event, callback)] *)
Definition unsubscribe (e : string) (cb : cbid) (hk : Hook) : Hook :=
  let t := eventListeners hk in
  mkHook (off e cb (service hk))
    (match t !! e with
     | Some arr => <[e := filter (λ c, c ≠ cb) arr]> t
     | None => t
     end).

(** The list the hook keeps for [e], [[]] when it keeps none. *)
Definition tracked (e : string) (hk : Hook) : list cbid :=
  default [] (eventListeners hk !! e).

(** [isConnected.current]: the ref starts [false] and is written only
    by [handleConnect] ([true]) and [handleDisconnect] ([false]), which
    nobody but [emit] invokes; its value is read off the invocations. *)
Definition isConnected_step (handleConnect handleDisconnect : cbid)
    (current : bool) (inv : invocation) : bool :=
  if Nat.eqb (fst inv) handleConnect then true
  else if Nat.eqb (fst inv) handleDisconnect then false
  else current.

Definition isConnected_current (handleConnect handleDisconnect : cbid)
    (log : list invocation) : bool :=
  fold_left (isConnected_step handleConnect handleDisconnect) log false.

End useWebSocket.

(** A call of [subscribe] or [unsubscribe] of the hook. *)
Definition apply_hook_op (o : op) (hk : useWebSocket.Hook) : useWebSocket.Hook :=
  match o with
  | On e cb => useWebSocket.subscribe e cb hk
  | Off e cb => useWebSocket.unsubscribe e cb hk
  end.

(** ** The application state *)

(** [types/index.ts] and the WebSocket handlers of [App]. *)
Module App.

Inductive Priority : Type := low | medium | high | critical.
Inductive Status : Type := pending | in_progress | completed | failed.

Record Task : Type := mkTask {
  id : string;
  title : string;
  description : string;
  requirements : list string;
  acceptance_criteria : list string;
  priority : Priority;
  status : Status;
  created_at : string;
  updated_at : string;
  duration : option string;
  iterations : option Z
}.

(** [handleTaskCreated]: [setTasks(prev => [...prev, task])] *)
Definition handleTaskCreated (task : Task) (prev : list Task) : list Task :=
  prev ++ [task].

(** [handleTaskUpdated]:
    [setTasks(prev => prev.map(t => t.id === task.id ? task : t))] *)
Definition handleTaskUpdated (task : Task) (prev : list Task) : list Task :=
  map (λ t, if String.eqb (id t) (id task) then task else t) prev.

(** [handleTaskDeleted]:
    [setTasks(prev => prev.filter(t => t.id !== data.task_id))] *)
Definition handleTaskDeleted (task_id : string) (prev : list Task) : list Task :=
  filter (λ t, id t ≠ task_id) prev.

End App.

(** ** The chat input *)

(** [components/ChatInterface.tsx]. Text is a sequence of UTF-16 code
    units, as in JavaScript. *)
Module ChatInterface.

Abbreviation jsstring := (list N) (only parsing).

(** The code units [String.prototype.trim] strips: WhiteSpace (TAB, VT,
    FF, ZWNBSP and the space separators) and LineTerminator (LF, CR, LS,
    PS). *)
Definition is_whitespace (c : N) : bool :=
  (N.eqb c 0x09 || N.eqb c 0x0A || N.eqb c 0x0B || N.eqb c 0x0C
   || N.eqb c 0x0D || N.eqb c 0x20 || N.eqb c 0xA0 || N.eqb c 0x1680
   || (N.leb 0x2000 c && N.leb c 0x200A)
   || N.eqb c 0x2028 || N.eqb c 0x2029 || N.eqb c 0x202F
   || N.eqb c 0x205F || N.eqb c 0x3000 || N.eqb c 0xFEFF)%N.

Fixpoint trimStart (s : jsstring) : jsstring :=
  match s with
  | [] => []
  | c :: s' => if is_whitespace c then trimStart s' else s
  end.

Definition trimEnd (s : jsstring) : jsstring :=
  rev (trimStart (rev s)).

(** [s.trim()] *)
Definition trim (s : jsstring) : jsstring :=
  trimEnd (trimStart s).

(** A string is truthy when it is not empty. *)
Definition truthy (s : jsstring) : bool :=
  match s with [] => false | _ => true end.

(** What a handler of the component did: the arguments of its calls of
    [onSendMessage], the next [inputValue], and whether it called
    [preventDefault]. *)
Record Outcome : Type := mkOutcome {
  sent : list jsstring;
  nextInput : jsstring;
  defaultPrevented : bool
}.

(** [handleSend] *)
Definition handleSend (inputValue : jsstring) (isProcessing : bool) : Outcome :=
  if truthy (trim inputValue) && negb isProcessing
  then mkOutcome [inputValue] [] false
  else mkOutcome [] inputValue false.

(** [handleKeyPress]: [isEnter] is [e.key === 'Enter']. *)
Definition handleKeyPress (isEnter shiftKey : bool)
    (inputValue : jsstring) (isProcessing : bool) : Outcome :=
  if isEnter && negb shiftKey
  then mkOutcome (sent (handleSend inputValue isProcessing))
                 (nextInput (handleSend inputValue isProcessing)) true
  else mkOutcome [] inputValue false.

End ChatInterface.

(** A page on which callback 1 throws whenever it is invoked. *)
Definition throwing_host : Host :=
  mkHost (λ _, Some "{}") true
    (λ cb _ _, match cb with 1%nat => [CThrow] | _ => [] end).

(** Callbacks 0, 1 and 2 subscribed to [update], in that order. *)
Definition three_subscribers : State :=
  on "update" 2%nat (on "update" 1%nat (on "update" 0%nat init)).

(** A connected service that has sent one message. *)
Definition sent_state : State :=
  default init
    (exec plain_host [ApiConnect; EvOpen 0%nat; ApiSend (Text "hello")] init).

(** A service whose first connection closed, with a reconnect pending. *)
Definition retrying_state : State :=
  default init (exec plain_host [ApiConnect; EvOpen 0%nat; EvClose 0%nat] init).

(** Three subscribers of [disconnected], the second of which throws, and
    a socket that is connecting. *)
Definition before_close : State :=
  default init
    (exec throwing_host
       [ApiOn "disconnected" 0%nat; ApiOn "disconnected" 1%nat;
        ApiOn "disconnected" 2%nat; ApiConnect] init).

(** A mounted hook with its two internal listeners 10 and 11. *)
Definition mounted_state : State :=
  useWebSocket.effect plain_host 10%nat 11%nat init.

(** A task with the given id and title. *)
Definition sample_task (task_id title : string) : App.Task :=
  App.mkTask task_id title "" [] [] App.medium App.pending "" "" None None.

Definition sample_tasks : list App.Task :=
  [sample_task "t1" "first"; sample_task "t2" "second"; sample_task "t3" "third"].


(** A page on which callback 1 unsubscribes itself from [update] when
    it is invoked, and the other callbacks call nothing. *)
Definition once_host : Host :=
  mkHost (λ _, Some "{}") true
    (λ cb _ _, match cb with 1%nat => [COff "update" 1%nat] | _ => [] end).

(** * Properties *)

(** ** Lifting a property of single calls to whole dispatch passes *)

Section Lifting.

Variable host : Host.
(** A relation between the state before and the state after. *)
Variable R : State → State → Prop.
(** The calls callbacks are allowed to make. *)
Variable allowed : cmd → bool.

Hypothesis R_refl : ∀ s, R s s.
Hypothesis R_trans : ∀ s1 s2 s3, R s1 s2 → R s2 s3 → R s1 s3.
Hypothesis R_cmd : ∀ c s, allowed c = true → R s (state_of (run_cmd host c s)).
Hypothesis R_calls : ∀ v s, R s (set_calls v s).
Hypothesis callbacks_allowed :
  ∀ cb d hist, forallb allowed (callback host cb d hist) = true.

Lemma lift_script cs s :
  forallb allowed cs = true → R s (state_of (run_script host cs s)).
Proof.
  revert s. induction cs as [|c cs IH]; intros s Hcs; simpl in *; [apply R_refl|].
  apply andb_prop in Hcs as [Hc Hcs].
  pose proof (R_cmd c s Hc) as Hstep.
  destruct (run_cmd host c s) as [s1|s1]; simpl in *; [|done].
  eapply R_trans; [exact Hstep|]. by apply IH.
Qed.

Lemma lift_invoke cb d s : R s (state_of (invoke host cb d s)).
Proof.
  unfold invoke. eapply R_trans; [apply (R_calls (calls s ++ [(cb, d)]))|].
  apply lift_script, callbacks_allowed.
Qed.

Lemma lift_forEach_from n k l d s :
  R s (state_of (forEach_from host n k l d s)).
Proof.
  revert k s. induction n as [|n IH]; intros k s; simpl; [apply R_refl|].
  destruct (heap s !! l ≫= _) as [cb|]; [|apply IH].
  pose proof (lift_invoke cb d s) as Hinv.
  destruct (invoke host cb d s) as [s1|s1]; simpl in *; [|done].
  eapply R_trans; [exact Hinv|apply IH].
Qed.

Lemma lift_emit e d s : R s (state_of (emit host e d s)).
Proof.
  unfold emit, forEach. destruct (listeners s !! e); [|apply R_refl].
  apply lift_forEach_from.
Qed.

End Lifting.

(** ** Arrays only grow *)

Lemma grows_refl s : grows s s.
Proof. intros l arr H. exists []. by rewrite app_nil_r. Qed.

Lemma grows_trans s1 s2 s3 : grows s1 s2 → grows s2 s3 → grows s1 s3.
Proof.
  intros H12 H23 l arr H.
  destruct (H12 l arr H) as [e1 H1]. destruct (H23 _ _ H1) as [e2 H2].
  exists (e1 ++ e2). by rewrite app_assoc.
Qed.

Lemma grows_push s l cb :
  grows s (set_heap (alter (λ arr, arr ++ [cb]) l (heap s)) s).
Proof.
  intros l' arr H. simpl. destruct (decide (l = l')) as [->|Hne].
  - exists [cb]. by rewrite list_lookup_alter_eq, H.
  - exists []. by rewrite app_nil_r, list_lookup_alter_ne.
Qed.

Lemma grows_on e cb s : grows s (on e cb s).
Proof.
  unfold on. destruct (listeners s !! e) as [l|] eqn:He.
  - rewrite He. apply grows_push.
  - simpl. rewrite lookup_insert_eq. intros l' arr H. simpl.
    exists []. rewrite app_nil_r.
    rewrite list_lookup_alter_ne by (apply lookup_lt_Some in H; lia).
    by apply lookup_app_l_Some.
Qed.

Lemma grows_off e cb s : grows s (off e cb s).
Proof.
  unfold off. destruct (listeners s !! e); [|apply grows_refl].
  intros l' arr H. exists []. simpl. rewrite app_nil_r.
  by apply lookup_app_l_Some.
Qed.

Lemma heap_ws_close h s : heap (ws_close h s) = heap s.
Proof. unfold ws_close. by repeat case_match. Qed.

Lemma heap_attemptReconnect s : heap (attemptReconnect s) = heap s.
Proof. unfold attemptReconnect. by case_match. Qed.

Lemma heap_connect host s : heap (connect host s) = heap s.
Proof. unfold connect. case_match; [done|apply heap_attemptReconnect]. Qed.

Lemma heap_disconnect s : heap (disconnect s) = heap s.
Proof. unfold disconnect. destruct (ws s); simpl; [apply heap_ws_close|done]. Qed.

Lemma heap_send host m s : heap (state_of (send host m s)) = heap s.
Proof. unfold send. by repeat case_match. Qed.

Lemma grows_heap_eq s s' : heap s' = heap s → grows s s'.
Proof. intros Heq l arr H. exists []. by rewrite app_nil_r, Heq. Qed.

Lemma grows_cmd host c s : grows s (state_of (run_cmd host c s)).
Proof.
  destruct c; simpl.
  - apply grows_on.
  - apply grows_off.
  - apply grows_heap_eq, heap_send.
  - apply grows_heap_eq, heap_connect.
  - apply grows_heap_eq, heap_disconnect.
  - apply grows_refl.
Qed.

Lemma grows_script host cs s : grows s (state_of (run_script host cs s)).
Proof.
  revert s. induction cs as [|c cs IH]; intros s; simpl; [apply grows_refl|].
  pose proof (grows_cmd host c s) as Hc.
  destruct (run_cmd host c s) as [s1|s1]; simpl in *; [|done].
  eapply grows_trans; [exact Hc|apply IH].
Qed.

(** ** Calls on the service do not invoke callbacks *)

Lemma calls_on e cb s : calls (on e cb s) = calls s.
Proof. unfold on. by repeat case_match. Qed.

Lemma calls_off e cb s : calls (off e cb s) = calls s.
Proof. unfold off. by case_match. Qed.

Lemma calls_ws_close h s : calls (ws_close h s) = calls s.
Proof. unfold ws_close. by repeat case_match. Qed.

Lemma calls_attemptReconnect s : calls (attemptReconnect s) = calls s.
Proof. unfold attemptReconnect. by case_match. Qed.

Lemma calls_connect host s : calls (connect host s) = calls s.
Proof. unfold connect. case_match; [done|apply calls_attemptReconnect]. Qed.

Lemma calls_disconnect s : calls (disconnect s) = calls s.
Proof. unfold disconnect. destruct (ws s); simpl; [apply calls_ws_close|done]. Qed.

Lemma calls_send host m s : calls (state_of (send host m s)) = calls s.
Proof. unfold send. by repeat case_match. Qed.

Lemma calls_cmd host c s : calls (state_of (run_cmd host c s)) = calls s.
Proof.
  destruct c; simpl.
  - apply calls_on.
  - apply calls_off.
  - apply calls_send.
  - apply calls_connect.
  - apply calls_disconnect.
  - done.
Qed.

Lemma calls_script host cs s : calls (state_of (run_script host cs s)) = calls s.
Proof.
  revert s. induction cs as [|c cs IH]; intros s; simpl; [done|].
  pose proof (calls_cmd host c s) as Hc.
  destruct (run_cmd host c s) as [s1|s1]; simpl in *; [|done].
  by rewrite IH.
Qed.

(** ** Calm scripts return *)

Lemma run_cmd_calm host c s :
  calm host c = true → ∃ s', run_cmd host c s = Ok s'.
Proof.
  destruct c; simpl; intros Hc; eauto; [|done].
  apply bool_decide_eq_true in Hc as [text Ht].
  unfold send. rewrite Ht. repeat case_match; eauto.
Qed.

Lemma run_script_calm host cs s :
  forallb (calm host) cs = true → ∃ s', run_script host cs s = Ok s'.
Proof.
  revert s. induction cs as [|c cs IH]; intros s Hcs; simpl in *; [eauto|].
  apply andb_prop in Hcs as [Hc Hcs].
  destruct (run_cmd_calm host c s Hc) as [s1 ->]. simpl. by apply IH.
Qed.

Lemma invoke_polite host cb d s :
  polite host cb →
  ∃ s', invoke host cb d s = Ok s' ∧ calls s' = calls s ++ [(cb, d)] ∧ grows s s'.
Proof.
  intros Hp. unfold invoke.
  destruct (run_script_calm host (callback host cb d (calls s))
              (set_calls (calls s ++ [(cb, d)]) s) (Hp d (calls s))) as [s' Hs'].
  exists s'. split; [done|].
  pose proof (calls_script host (callback host cb d (calls s))
                (set_calls (calls s ++ [(cb, d)]) s)) as Hc.
  pose proof (grows_script host (callback host cb d (calls s))
                (set_calls (calls s ++ [(cb, d)]) s)) as Hg.
  rewrite Hs' in Hc, Hg. simpl in *. split; [done|exact Hg].
Qed.

(** ** One dispatch pass *)

(** The loop of [forEach] over the array at [l], which held [arr] when
    the length was read and may have been pushed onto since: the
    remaining indices [k ..] of [arr] are each invoked once, in order. *)
Lemma forEach_from_pass host l d n :
  ∀ k s arr ext,
    heap s !! l = Some (arr ++ ext) →
    (k + n = length arr)%nat →
    (∀ cb, cb ∈ drop k arr → polite host cb) →
    ∃ s', forEach_from host n k l d s = Ok s'
          ∧ calls s' = calls s ++ map (λ cb, (cb, d)) (drop k arr)
          ∧ grows s s'.
Proof.
  induction n as [|n IH]; intros k s arr ext Hl Hlen Hpol; simpl.
  - exists s. rewrite drop_ge by lia. simpl. rewrite app_nil_r.
    auto using grows_refl.
  - destruct (lookup_lt_is_Some_2 arr k) as [cb Hcb]; [lia|].
    rewrite Hl. simpl. rewrite (lookup_app_l_Some _ _ _ _ Hcb).
    rewrite (drop_S _ _ _ Hcb) in *.
    destruct (invoke_polite host cb d s) as (s1 & -> & Hc1 & Hg1).
    { apply Hpol. left. }
    simpl. destruct (Hg1 _ _ Hl) as [ext1 Hl1].
    rewrite <- app_assoc in Hl1.
    destruct (IH (S k) s1 arr (ext ++ ext1) Hl1) as (s' & Hs' & Hc' & Hg'); [lia| |].
    { intros c Hc. apply Hpol. by right. }
    exists s'. split; [done|]. split.
    + rewrite Hc', Hc1. simpl. by rewrite <- app_assoc.
    + eauto using grows_trans.
Qed.

(** A pass of [emit] invokes the subscribers it found when it started,
    in order, whatever they do to the table meanwhile. *)
Lemma emit_pass host e d s :
  (∀ cb, cb ∈ subscribers e s → polite host cb) →
  ∃ s', emit host e d s = Ok s'
        ∧ calls s' = calls s ++ map (λ cb, (cb, d)) (subscribers e s)
        ∧ grows s s'.
Proof.
  unfold emit, forEach, subscribers. intros Hpol.
  destruct (listeners s !! e) as [l|].
  - destruct (heap s !! l) as [arr|] eqn:Hl; simpl in *.
    + destruct (forEach_from_pass host l d (length arr) 0 s arr [])
        as (s' & Hs' & Hc' & Hg'); [by rewrite app_nil_r|lia|done|].
      rewrite drop_0 in Hc'. eauto.
    + exists s. rewrite app_nil_r. auto using grows_refl.
  - exists s. simpl. rewrite app_nil_r. auto using grows_refl.
Qed.

(** ** The table after calls of [on] and [off] *)

Lemma wf_init : wf init.
Proof. split; intros *; simpl; by rewrite lookup_empty. Qed.

Lemma filter_remove_all cb (l : list cbid) :
  filter (λ c, c ≠ cb) l = spec_remove_all cb l.
Proof.
  induction l as [|c l IH]; [done|]. simpl.
  destruct (Nat.eqb_spec c cb) as [->|Hne].
  - by rewrite filter_cons_False by (intros H; by apply H).
  - by rewrite filter_cons_True, IH.
Qed.

Lemma subscribers_on e cb s e' :
  wf s →
  subscribers e' (on e cb s)
  = if decide (e = e') then subscribers e s ++ [cb] else subscribers e' s.
Proof.
  intros [Hlt Hinj]. unfold on, subscribers.
  destruct (listeners s !! e) as [l|] eqn:He.
  - rewrite He. simpl. destruct (decide (e = e')) as [<-|Hne].
    + rewrite He, list_lookup_alter_eq.
      destruct (lookup_lt_is_Some_2 (heap s) l (Hlt _ _ He)) as [arr ->]. done.
    + destruct (listeners s !! e') as [l'|] eqn:He'; [|done].
      rewrite list_lookup_alter_ne; [done|].
      intros ->. apply Hne. eauto.
  - simpl. rewrite lookup_insert_eq. simpl.
    destruct (decide (e = e')) as [<-|Hne].
    + rewrite lookup_insert_eq, list_lookup_alter_eq.
      by rewrite lookup_app_r, Nat.sub_diag by lia.
    + rewrite lookup_insert_ne by done.
      destruct (listeners s !! e') as [l'|] eqn:He'; [|done].
      pose proof (Hlt _ _ He').
      rewrite list_lookup_alter_ne by lia.
      by rewrite lookup_app_l by lia.
Qed.

Lemma subscribers_off e cb s e' :
  wf s →
  subscribers e' (off e cb s)
  = if decide (e = e') then spec_remove_all cb (subscribers e s) else subscribers e' s.
Proof.
  intros [Hlt Hinj]. unfold off, subscribers.
  destruct (listeners s !! e) as [l|] eqn:He.
  - simpl. destruct (decide (e = e')) as [<-|Hne].
    + rewrite lookup_insert_eq, lookup_app_r, Nat.sub_diag by lia. simpl.
      apply filter_remove_all.
    + rewrite lookup_insert_ne by done.
      destruct (listeners s !! e') as [l'|] eqn:He'; [|done].
      pose proof (Hlt _ _ He'). by rewrite lookup_app_l by lia.
  - destruct (decide (e = e')) as [<-|Hne]; [by rewrite He|done].
Qed.

Lemma wf_on e cb s : wf s → wf (on e cb s).
Proof.
  intros [Hlt Hinj]. unfold on.
  destruct (listeners s !! e) as [l|] eqn:He.
  - rewrite He. split; simpl.
    + intros e1 l1 H1. rewrite length_alter. eauto.
    + exact Hinj.
  - simpl. rewrite lookup_insert_eq. split; simpl.
    + intros e1 l1. rewrite length_alter, length_app. simpl.
      destruct (decide (e = e1)) as [<-|Hne].
      * rewrite lookup_insert_eq. intros [= <-]. lia.
      * rewrite lookup_insert_ne by done. intros H1%Hlt. lia.
    + intros e1 e2 l0.
      destruct (decide (e = e1)) as [<-|Hne1], (decide (e = e2)) as [<-|Hne2];
        rewrite ?lookup_insert_eq, ?lookup_insert_ne by done; try done.
      * intros [= <-] H2%Hlt. lia.
      * intros H1%Hlt [= <-]. lia.
      * apply Hinj.
Qed.

Lemma wf_off e cb s : wf s → wf (off e cb s).
Proof.
  intros [Hlt Hinj]. unfold off.
  destruct (listeners s !! e) as [l|] eqn:He; [|done].
  split; simpl.
  - intros e1 l1. rewrite length_app. simpl.
    destruct (decide (e = e1)) as [<-|Hne].
    + rewrite lookup_insert_eq. intros [= <-]. lia.
    + rewrite lookup_insert_ne by done. intros H1%Hlt. lia.
  - intros e1 e2 l0.
    destruct (decide (e = e1)) as [<-|Hne1], (decide (e = e2)) as [<-|Hne2];
      rewrite ?lookup_insert_eq, ?lookup_insert_ne by done; try done.
    + intros [= <-] H2%Hlt. lia.
    + intros H1%Hlt [= <-]. lia.
    + apply Hinj.
Qed.

Lemma subscribers_apply_op o s e :
  wf s → subscribers e (apply_op o s) = spec_step e (subscribers e s) o.
Proof.
  intros Hwf. destruct o as [e' cb|e' cb]; simpl.
  - rewrite subscribers_on by done.
    destruct (String.eqb_spec e' e), (decide (e' = e)); congruence.
  - rewrite subscribers_off by done.
    destruct (String.eqb_spec e' e), (decide (e' = e)); congruence.
Qed.

Lemma wf_apply_op o s : wf s → wf (apply_op o s).
Proof. destruct o; simpl; auto using wf_on, wf_off. Qed.

Lemma calls_apply_op o s : calls (apply_op o s) = calls s.
Proof. destruct o; simpl; auto using calls_on, calls_off. Qed.

(** The router refines the specification's subscriber list. *)
Lemma subscribers_fold ops : ∀ s e,
  wf s →
  let s' := fold_left (λ s o, apply_op o s) ops s in
  wf s' ∧ calls s' = calls s
  ∧ subscribers e s' = fold_left (spec_step e) ops (subscribers e s).
Proof.
  induction ops as [|o ops IH]; intros s e Hwf; simpl; [done|].
  destruct (IH (apply_op o s) e (wf_apply_op o s Hwf)) as (Hwf' & Hc & Hs).
  split; [done|]. split.
  - by rewrite Hc, calls_apply_op.
  - by rewrite Hs, subscribers_apply_op.
Qed.

(** ** What each method leaves alone *)

Lemma same_retry_refl s : same_retry s s.
Proof. done. Qed.

Lemma same_retry_trans s1 s2 s3 :
  same_retry s1 s2 → same_retry s2 s3 → same_retry s1 s3.
Proof. unfold same_retry. intros (-> & -> & ->) (-> & -> & ->). done. Qed.

Lemma same_retry_on e cb s : same_retry s (on e cb s).
Proof. unfold on, same_retry. by repeat case_match. Qed.

Lemma same_retry_off e cb s : same_retry s (off e cb s).
Proof. unfold off, same_retry. by case_match. Qed.

Lemma same_retry_ws_close h s : same_retry s (ws_close h s).
Proof. unfold ws_close, same_retry. by repeat case_match. Qed.

Lemma same_retry_disconnect s : same_retry s (disconnect s).
Proof.
  unfold disconnect. destruct (ws s) as [h|]; [|done].
  destruct (same_retry_ws_close h s) as (? & ? & ?). done.
Qed.

Lemma same_retry_send host m s : same_retry s (state_of (send host m s)).
Proof. unfold send, same_retry. by repeat case_match. Qed.

Lemma same_retry_connect_ok host s :
  new_WebSocket_ok host = true → same_retry s (connect host s).
Proof. unfold connect. by intros ->. Qed.

(** A callback can reach [attemptReconnect] only through a [connect()]
    whose [new WebSocket] throws. *)
Lemma same_retry_cmd host c s :
  new_WebSocket_ok host || negb (is_connect c) = true →
  same_retry s (state_of (run_cmd host c s)).
Proof.
  intros Hc. destruct c; simpl in *.
  - apply same_retry_on.
  - apply same_retry_off.
  - apply same_retry_send.
  - rewrite orb_false_r in Hc. by apply same_retry_connect_ok.
  - apply same_retry_disconnect.
  - done.
Qed.

Lemma same_retry_emit_ok host e d s :
  new_WebSocket_ok host = true → same_retry s (state_of (emit host e d s)).
Proof.
  intros Hok.
  apply (lift_emit host same_retry (λ c, new_WebSocket_ok host || negb (is_connect c)));
    [apply same_retry_refl|apply same_retry_trans|apply same_retry_cmd|done|].
  intros cb d' hist. rewrite Hok. simpl. by apply forallb_forall.
Qed.

Lemma same_retry_emit_no_connect host e d s :
  (∀ cb d hist, forallb (λ c, negb (is_connect c)) (callback host cb d hist) = true) →
  same_retry s (state_of (emit host e d s)).
Proof.
  intros Hnc.
  apply (lift_emit host same_retry (λ c, negb (is_connect c)));
    [apply same_retry_refl|apply same_retry_trans| |done|done].
  intros c s0 Hc. apply same_retry_cmd. rewrite Hc. apply orb_true_r.
Qed.

(** ** The retry counter pays for every scheduled reconnect *)

Lemma stall_refl s : stall s s.
Proof. unfold stall. auto. Qed.

Lemma stall_trans s1 s2 s3 : stall s1 s2 → stall s2 s3 → stall s1 s3.
Proof.
  unfold stall. intros (H1 & P1 & B1) (H2 & P2 & B2).
  split; [lia|]. split; [by etrans|].
  destruct B2 as [?| ->]; [by left|done].
Qed.

Lemma stall_same_retry s s' : same_retry s s' → stall s s'.
Proof. unfold stall. intros (-> & -> & _). auto. Qed.

Lemma stall_attemptReconnect s : stall s (attemptReconnect s).
Proof.
  unfold attemptReconnect, maxReconnectAttempts.
  destruct (Z.ltb_spec (reconnectAttempts s) 5); [|apply stall_refl].
  unfold stall, maxReconnectAttempts. simpl. rewrite length_app. simpl.
  split; [lia|]. split; [by apply prefix_app_r|]. left. lia.
Qed.

Lemma stall_connect host s : stall s (connect host s).
Proof.
  unfold connect. destruct (new_WebSocket_ok host);
    [by apply stall_same_retry|apply stall_attemptReconnect].
Qed.

Lemma stall_cmd host c s : stall s (state_of (run_cmd host c s)).
Proof.
  destruct c; simpl;
    [apply stall_same_retry, same_retry_on|apply stall_same_retry, same_retry_off
    |apply stall_same_retry, same_retry_send|apply stall_connect
    |apply stall_same_retry, same_retry_disconnect|apply stall_refl].
Qed.

Lemma stall_emit host e d s : stall s (state_of (emit host e d s)).
Proof.
  apply (lift_emit host stall (λ _, true));
    [apply stall_refl|apply stall_trans| | |].
  - intros c s0 _. apply stall_cmd.
  - intros v s0. by apply stall_same_retry.
  - intros cb d' hist. by apply forallb_forall.
Qed.

(** ** Sockets *)

Lemma elem_of_insert_inv {A} (l : list A) i x y :
  y ∈ <[i := x]> l → y = x ∨ y ∈ l.
Proof.
  intros [j Hj]%list_elem_of_lookup.
  apply list_lookup_insert_Some in Hj as [(-> & -> & _)|[_ Hj]]; [by left|].
  right. by eapply list_elem_of_lookup_2.
Qed.

Lemma settled_ws_close h s : settled s (ws_close h s).
Proof.
  unfold settled, no_connecting, ws_close. intros Hs.
  repeat case_match; try done; simpl;
    intros [?|?]%elem_of_insert_inv; done.
Qed.

Lemma sockets_on e cb s : sockets (on e cb s) = sockets s.
Proof. unfold on. by repeat case_match. Qed.

Lemma sockets_off e cb s : sockets (off e cb s) = sockets s.
Proof. unfold off. by case_match. Qed.

Lemma sockets_send host m s : sockets (state_of (send host m s)) = sockets s.
Proof. unfold send. by repeat case_match. Qed.

Lemma sockets_attemptReconnect s : sockets (attemptReconnect s) = sockets s.
Proof. unfold attemptReconnect. by case_match. Qed.

Lemma settled_disconnect s : settled s (disconnect s).
Proof.
  unfold disconnect. destruct (ws s) as [h|]; [|exact (λ H, H)].
  intros Hs. unfold no_connecting. simpl. by apply (settled_ws_close h s).
Qed.

Lemma settled_cmd host c s :
  negb (is_connect c) = true → settled s (state_of (run_cmd host c s)).
Proof.
  unfold settled, no_connecting. destruct c; simpl; intros Hc Hs; try done.
  - by rewrite sockets_on.
  - by rewrite sockets_off.
  - by rewrite sockets_send.
  - by apply settled_disconnect.
Qed.

Lemma settled_emit host e d s :
  (∀ cb d hist, forallb (λ c, negb (is_connect c)) (callback host cb d hist) = true) →
  settled s (state_of (emit host e d s)).
Proof.
  intros Hnc.
  apply (lift_emit host settled (λ c, negb (is_connect c)));
    [intros s0 H; exact H|intros s1 s2 s3 H12 H23 H1; auto
    | |intros v s0 H; exact H|done].
  intros c s0 Hc. by apply settled_cmd.
Qed.

Lemma socketless_cmd host c s : socketless host s (state_of (run_cmd host c s)).
Proof.
  unfold socketless. intros Hok Hs. destruct c; simpl.
  - by rewrite sockets_on.
  - by rewrite sockets_off.
  - by rewrite sockets_send.
  - unfold connect. rewrite Hok. by rewrite sockets_attemptReconnect.
  - unfold disconnect, ws_close. destruct (ws s); simpl; [|done].
    rewrite Hs. by rewrite lookup_nil.
  - done.
Qed.

(** ** Invariants of the event loop *)

Lemma stall_bounded s s' : stall s s' → bounded s → bounded s'.
Proof.
  unfold stall, bounded. intros (Hpot & Hpre & Hmax) Hb.
  apply prefix_length in Hpre. lia.
Qed.

Lemma stall_onclose host s : stall s (state_of (onclose host s)).
Proof.
  unfold onclose. pose proof (stall_emit host "disconnected" Null s) as He.
  destruct (emit host "disconnected" Null s) as [s1|s1]; simpl in *; [|done].
  eapply stall_trans; [exact He|apply stall_attemptReconnect].
Qed.

(** Every handler but [onopen] keeps the books of the retry policy. *)
Lemma handle_event_stall host ev s r :
  is_open ev = false → handle_event host ev s = Some r → stall s (state_of r).
Proof.
  intros Hev Hr. destruct ev; simpl in *; try done.
  - injection Hr as <-. apply stall_connect.
  - injection Hr as <-. apply stall_same_retry, same_retry_disconnect.
  - injection Hr as <-. apply stall_same_retry, same_retry_on.
  - injection Hr as <-. apply stall_same_retry, same_retry_off.
  - injection Hr as <-. apply stall_same_retry, same_retry_send.
  - destruct (sockets s !! h) as [[]|]; try done. injection Hr as <-.
    unfold onmessage. destruct frame as [[ty d]|]; [|apply stall_refl].
    apply stall_emit.
  - destruct (sockets s !! h); [|done]. injection Hr as <-. apply stall_emit.
  - assert (stall s (set_sockets (<[h:=CLOSED]> (sockets s)) s)) as H0
      by (by apply stall_same_retry).
    destruct (sockets s !! h) as [[]|]; try done; injection Hr as <-;
      (eapply stall_trans; [exact H0|apply stall_onclose]).
  - destruct (timers s !! i); [|done]. injection Hr as <-.
    eapply stall_trans; [|apply stall_connect].
    unfold stall. simpl. auto.
Qed.

Lemma handle_event_bounded host ev s r :
  handle_event host ev s = Some r → bounded s → bounded (state_of r).
Proof.
  intros Hr Hb. destruct (is_open ev) eqn:Hev.
  - destruct ev; try done. simpl in Hr.
    destruct (sockets s !! h) as [[]|]; try done. injection Hr as <-.
    unfold onopen. eapply stall_bounded; [apply stall_emit|].
    unfold bounded, maxReconnectAttempts. simpl. lia.
  - eapply stall_bounded; [|exact Hb]. by eapply handle_event_stall.
Qed.

Lemma handle_event_socketless host ev s r :
  new_WebSocket_ok host = false →
  handle_event host ev s = Some r → sockets s = [] → sockets (state_of r) = [].
Proof.
  intros Hok Hr Hs. destruct ev; simpl in *; rewrite ?Hs, ?lookup_nil in Hr;
    try done; try (injection Hr as <-).
  - simpl. unfold connect. by rewrite Hok, sockets_attemptReconnect.
  - by apply (socketless_cmd host CDisconnect s).
  - simpl. by rewrite sockets_on.
  - simpl. by rewrite sockets_off.
  - by rewrite sockets_send.
  - destruct (timers s !! i); [|done]. injection Hr as <-. simpl.
    unfold connect. by rewrite Hok, sockets_attemptReconnect.
Qed.

Lemma Inv_init host : Inv host init.
Proof. unfold Inv, bounded, maxReconnectAttempts. simpl. split; [lia|done]. Qed.

Lemma exec_Inv host tr : ∀ s s',
  Inv host s → exec host tr s = Some s' → Inv host s'.
Proof.
  induction tr as [|ev tr IH]; intros s s' HI Hex; simpl in *.
  - by injection Hex as <-.
  - destruct (handle_event host ev s) as [r|] eqn:Hr; [|done].
    apply (IH (state_of r)); [|done]. destruct HI as [Hb Hs]. split.
    + by eapply handle_event_bounded.
    + intros Hok. eapply handle_event_socketless; eauto.
Qed.

Lemma reachable_Inv host s : reachable host s → Inv host s.
Proof. intros [tr Htr]. eapply exec_Inv; [apply Inv_init|exact Htr]. Qed.

(** A socket exists only if [new WebSocket] returned it. *)
Lemma socket_exists_ok host s h st :
  Inv host s → sockets s !! h = Some st → new_WebSocket_ok host = true.
Proof.
  intros [_ Hs] Hh. destruct (new_WebSocket_ok host); [done|].
  rewrite Hs in Hh by done. by rewrite lookup_nil in Hh.
Qed.

Lemma exec_stall host tr : ∀ s s',
  forallb (λ ev, negb (is_open ev)) tr = true →
  exec host tr s = Some s' → stall s s'.
Proof.
  induction tr as [|ev tr IH]; intros s s' Htr Hex; simpl in *.
  - injection Hex as <-. apply stall_refl.
  - apply andb_prop in Htr as [Hev Htr]. apply negb_true_iff in Hev.
    destruct (handle_event host ev s) as [r|] eqn:Hr; [|done].
    eapply stall_trans; [by eapply handle_event_stall|by apply IH].
Qed.

(** ** The policy at rest *)

Lemma attemptReconnect_exhausted s :
  reconnectAttempts s = maxReconnectAttempts → attemptReconnect s = s.
Proof. unfold attemptReconnect. intros ->. done. Qed.

Section Dormant.

Variable host : Host.
Hypothesis callbacks_never_connect :
  ∀ cb d hist, forallb (λ c, negb (is_connect c)) (callback host cb d hist) = true.

Lemma emit_keeps_dormant e d s :
  dormant s →
  dormant (state_of (emit host e d s))
  ∧ scheduled (state_of (emit host e d s)) = scheduled s.
Proof.
  intros (Ha & Ht & Hn).
  destruct (same_retry_emit_no_connect host e d s callbacks_never_connect)
    as (Ha' & Hs' & Ht').
  pose proof (settled_emit host e d s callbacks_never_connect Hn).
  unfold dormant. rewrite Ha', Ht'. done.
Qed.

Lemma dormant_set_sockets s h st :
  st ≠ CONNECTING → dormant s → dormant (set_sockets (<[h := st]> (sockets s)) s).
Proof.
  intros Hst (Ha & Ht & Hn). unfold dormant, no_connecting in *. simpl.
  split; [done|]. split; [done|].
  intros [?|?]%elem_of_insert_inv; done.
Qed.

Lemma handle_event_dormant ev s r :
  is_connect_call ev = false →
  dormant s → handle_event host ev s = Some r →
  dormant (state_of r) ∧ scheduled (state_of r) = scheduled s.
Proof.
  intros Hev Hd Hr. destruct ev; simpl in *; try done.
  - injection Hr as <-. destruct Hd as (Ha & Ht & Hn).
    destruct (same_retry_disconnect s) as (Ha' & Hs' & Ht').
    pose proof (settled_disconnect s Hn).
    unfold dormant. simpl state_of. rewrite Ha', Ht'. done.
  - injection Hr as <-. destruct Hd as (Ha & Ht & Hn).
    destruct (same_retry_on e cb s) as (Ha' & Hs' & Ht').
    unfold dormant, no_connecting. simpl state_of. by rewrite Ha', Ht', sockets_on.
  - injection Hr as <-. destruct Hd as (Ha & Ht & Hn).
    destruct (same_retry_off e cb s) as (Ha' & Hs' & Ht').
    unfold dormant, no_connecting. simpl state_of. by rewrite Ha', Ht', sockets_off.
  - injection Hr as <-. destruct Hd as (Ha & Ht & Hn).
    destruct (same_retry_send host m s) as (Ha' & Hs' & Ht').
    unfold dormant, no_connecting. by rewrite Ha', Ht', sockets_send.
  - destruct (sockets s !! h) as [[]|] eqn:Hh; try done.
    destruct Hd as (_ & _ & Hn). exfalso. apply Hn.
    by eapply list_elem_of_lookup_2.
  - destruct (sockets s !! h) as [[]|]; try done. injection Hr as <-.
    unfold onmessage. destruct frame as [[ty d]|]; [|done].
    by apply emit_keeps_dormant.
  - destruct (sockets s !! h); [|done]. injection Hr as <-.
    by apply emit_keeps_dormant.
  - assert (dormant (set_sockets (<[h:=CLOSED]> (sockets s)) s)) as Hd0
      by (by apply dormant_set_sockets).
    assert (state_of (onclose host (set_sockets (<[h:=CLOSED]> (sockets s)) s))
            = state_of (emit host "disconnected" Null
                          (set_sockets (<[h:=CLOSED]> (sockets s)) s))) as Hoc.
    { unfold onclose.
      destruct (emit_keeps_dormant "disconnected" Null _ Hd0) as [(Ha & _) _].
      destruct (emit host "disconnected" Null _) as [s1|s1]; simpl in *; [|done].
      by rewrite attemptReconnect_exhausted. }
    destruct (emit_keeps_dormant "disconnected" Null _ Hd0) as [Hd1 Hs1].
    destruct (sockets s !! h) as [[]|]; try done; injection Hr as <-;
      rewrite Hoc; (split; [exact Hd1|exact Hs1]).
  - destruct Hd as (_ & Ht & _). by rewrite Ht, lookup_nil in Hr.
Qed.

Lemma exec_dormant tr : ∀ s s',
  forallb (λ ev, negb (is_connect_call ev)) tr = true →
  dormant s → exec host tr s = Some s' →
  dormant s' ∧ scheduled s' = scheduled s.
Proof.
  induction tr as [|ev tr IH]; intros s s' Htr Hd Hex; simpl in *.
  - by injection Hex as <-.
  - apply andb_prop in Htr as [Hev Htr]. apply negb_true_iff in Hev.
    destruct (handle_event host ev s) as [r|] eqn:Hr; [|done].
    destruct (handle_event_dormant ev s r Hev Hd Hr) as [Hd1 Hs1].
    destruct (IH (state_of r) s' Htr Hd1 Hex) as [Hd' Hs'].
    split; [done|]. by rewrite Hs', Hs1.
Qed.

End Dormant.

(** ** The event router *)

(** C1. After any sequence of [on]/[off] calls on a new router,
    [emit(e, d)] returns having invoked exactly the callbacks the
    specification counts as currently subscribed to [e]: one invocation
    per registration, in subscription order, each with argument [d]. In
    particular a callback subscribed twice more is invoked twice more.
    The event names of the calls and of the emit are not among the
    property names every object inherits ([constructor], [toString],
    ...): for those, [on] and [emit] throw a [TypeError], nothing is
    registered and nothing is invoked. The subscribed callbacks are
    assumed to return normally; they may call back into the service. *)
Theorem emit_invokes_current_subscribers host ops e d :
  Forall (λ o, inherited (op_event o) = false) ops →
  inherited e = false →
  (∀ cb, cb ∈ spec_subscribed ops e → polite host cb) →
  (∃ s', emit host e d (fold_left (λ s o, apply_op o s) ops init) = Ok s'
         ∧ calls s' = map (λ cb, (cb, d)) (spec_subscribed ops e))
  ∧ (∀ cb, polite host cb →
       ∃ s', emit host e d
               (fold_left (λ s o, apply_op o s) (ops ++ [On e cb; On e cb]) init) = Ok s'
             ∧ calls s' = map (λ c, (c, d)) (spec_subscribed ops e) ++ [(cb, d); (cb, d)]).
Proof.
  intros _ _ Hpol.
  assert (∀ ops', (∀ cb, cb ∈ spec_subscribed ops' e → polite host cb) →
            ∃ s', emit host e d (fold_left (λ s o, apply_op o s) ops' init) = Ok s'
                  ∧ calls s' = map (λ cb, (cb, d)) (spec_subscribed ops' e)) as Hgen.
  { intros ops' Hpol'.
    destruct (subscribers_fold ops' init e wf_init) as (_ & Hc & Hs).
    change (subscribers e init) with (@nil nat) in Hs.
    fold (spec_subscribed ops' e) in Hs.
    destruct (emit_pass host e d (fold_left (λ s o, apply_op o s) ops' init))
      as (s' & Hs' & Hc' & _).
    { rewrite Hs. exact Hpol'. }
    exists s'. split; [done|]. by rewrite Hc', Hc, Hs. }
  split; [by apply Hgen|].
  intros cb Hcb.
  assert (spec_subscribed (ops ++ [On e cb; On e cb]) e
          = spec_subscribed ops e ++ [cb; cb]) as Hspec.
  { unfold spec_subscribed. rewrite fold_left_app. simpl.
    rewrite String.eqb_refl. by rewrite <- app_assoc. }
  destruct (Hgen (ops ++ [On e cb; On e cb])) as (s' & Hs' & Hc').
  { rewrite Hspec. intros c [Hc|Hc]%elem_of_app; [by apply Hpol|].
    apply elem_of_cons in Hc as [->|Hc]; [done|].
    apply elem_of_cons in Hc as [->|Hc]; [done|]. by apply elem_of_nil in Hc. }
  exists s'. split; [done|]. by rewrite Hc', Hspec, map_app.
Qed.

(** C2. A dispatch pass works on a snapshot as far as removals go: if the
    callbacks subscribed to [e] return normally, then whatever they do
    while being dispatched, calling [off(e, cb)] for themselves or for
    others included, [emit(e, d)] returns normally and has invoked every
    callback that was subscribed to [e] when the pass started, once per
    registration and in order. The lookup of [e] in the table is assumed
    not to find an inherited member, for which [emit] throws a
    [TypeError]: [e] has a list of its own, or is not a name every
    object inherits. *)
Theorem emit_unaffected_by_off_during_dispatch host e d s :
  finds_inherited e s = false →
  (∀ cb, cb ∈ subscribers e s → polite host cb) →
  ∃ s', emit host e d s = Ok s'
        ∧ calls s' = calls s ++ map (λ cb, (cb, d)) (subscribers e s).
Proof.
  intros _ Hpol. destruct (emit_pass host e d s Hpol) as (s' & Hs' & Hc' & _).
  eauto.
Qed.

(** ** send *)

(** C7. [send(message)] with no transport, or with a transport that is
    not [OPEN], returns normally and leaves the whole state as it was:
    nothing is written to the wire, nothing is kept for later, and the
    table, the retry state and the handle are untouched; the message is
    not even serialised. *)
Theorem send_when_not_open_is_noop host m s :
  (∀ h, ws s = Some h → sockets s !! h ≠ Some OPEN) →
  send host m s = Ok s.
Proof.
  intros Hno. unfold send. destruct (ws s) as [h|]; [|done].
  case_decide as Hopen; [|done]. by destruct (Hno h eq_refl).
Qed.

(** ** disconnect and the table *)

Lemma emit_empty host e d s : listeners s = ∅ → emit host e d s = Ok s.
Proof. unfold emit. intros ->. by rewrite lookup_empty. Qed.

Lemma listeners_attemptReconnect s : listeners (attemptReconnect s) = listeners s.
Proof. unfold attemptReconnect. by case_match. Qed.

Lemma listeners_connect host s : listeners (connect host s) = listeners s.
Proof. unfold connect. case_match; [done|apply listeners_attemptReconnect]. Qed.

Lemma listeners_send host m s : listeners (state_of (send host m s)) = listeners s.
Proof. unfold send. by repeat case_match. Qed.

Lemma listeners_disconnect s : listeners (disconnect s) = ∅.
Proof. done. Qed.

Lemma handle_event_empty host ev s r :
  is_on_call ev = false → listeners s = ∅ →
  handle_event host ev s = Some r →
  listeners (state_of r) = ∅ ∧ calls (state_of r) = calls s.
Proof.
  intros Hev He Hr. destruct ev; simpl in *; try done.
  - injection Hr as <-. cbn [state_of]. by rewrite listeners_connect, calls_connect.
  - injection Hr as <-. cbn [state_of]. by rewrite calls_disconnect.
  - injection Hr as <-. cbn [state_of]. unfold off. by rewrite He, lookup_empty.
  - injection Hr as <-. by rewrite listeners_send, calls_send.
  - destruct (sockets s !! h) as [[]|]; try done. injection Hr as <-.
    unfold onopen. by rewrite emit_empty.
  - destruct (sockets s !! h) as [[]|]; try done. injection Hr as <-.
    unfold onmessage. destruct frame as [[ty d]|]; [|done].
    by rewrite emit_empty.
  - destruct (sockets s !! h); [|done]. injection Hr as <-.
    unfold onerror. by rewrite emit_empty.
  - destruct (sockets s !! h) as [[]|]; try done; injection Hr as <-;
      unfold onclose; rewrite emit_empty by done; cbn [andThen state_of];
      by rewrite listeners_attemptReconnect, calls_attemptReconnect.
  - destruct (timers s !! i); [|done]. injection Hr as <-. cbn [state_of].
    by rewrite listeners_connect, calls_connect.
Qed.

Lemma exec_empty host tr : ∀ s s',
  forallb (λ ev, negb (is_on_call ev)) tr = true →
  listeners s = ∅ → exec host tr s = Some s' →
  listeners s' = ∅ ∧ calls s' = calls s.
Proof.
  induction tr as [|ev tr IH]; intros s s' Htr He Hex; simpl in *.
  - by injection Hex as <-.
  - apply andb_prop in Htr as [Hev Htr]. apply negb_true_iff in Hev.
    destruct (handle_event host ev s) as [r|] eqn:Hr; [|done].
    destruct (handle_event_empty host ev s r Hev He Hr) as [He1 Hc1].
    destruct (IH (state_of r) s' Htr He1 Hex) as [He' Hc'].
    split; [done|]. by rewrite Hc', Hc1.
Qed.

(** C8. [disconnect()] empties the subscription table for every event
    name. From then on, and as long as the application does not call
    [on] again, whatever else happens (stray timers, transport events,
    other calls), no callback is invoked, and [emit(e, d)] finds no
    subscriber, invokes nothing and changes nothing; it returns
    normally for every event name that is not one every object inherits
    (for [constructor], [toString] and the like, [emit] on the new empty
    table throws a [TypeError]). *)
Theorem emit_after_disconnect_invokes_nothing host s tr s' e d :
  forallb (λ ev, negb (is_on_call ev)) tr = true →
  exec host tr (disconnect s) = Some s' →
  subscribers e (disconnect s) = []
  ∧ subscribers e s' = []
  ∧ calls s' = calls s
  ∧ state_of (emit host e d s') = s'
  ∧ (inherited e = false → emit host e d s' = Ok s').
Proof.
  intros Htr Hex.
  destruct (exec_empty host tr (disconnect s) s' Htr (listeners_disconnect s) Hex)
    as [He Hc].
  split; [done|]. split; [|split; [|split]].
  - unfold subscribers. by rewrite He, lookup_empty.
  - by rewrite Hc, calls_disconnect.
  - by rewrite emit_empty.
  - intros _. by apply emit_empty.
Qed.

(** ** disconnect and the close event that follows it *)


Lemma attemptReconnect_below_max s :
  reconnectAttempts s < maxReconnectAttempts →
  attemptReconnect s
  = set_scheduled (scheduled s ++ [reconnectDelay * (reconnectAttempts s + 1)])
      (set_timers (timers s ++ [reconnectDelay * (reconnectAttempts s + 1)])
         (set_reconnectAttempts (reconnectAttempts s + 1) s)).
Proof.
  unfold attemptReconnect. intros Hlt.
  by destruct (Z.ltb_spec (reconnectAttempts s) maxReconnectAttempts); [|lia].
Qed.

Lemma attemptReconnect_at_max s :
  maxReconnectAttempts ≤ reconnectAttempts s → attemptReconnect s = s.
Proof.
  unfold attemptReconnect. intros Hge.
  by destruct (Z.ltb_spec (reconnectAttempts s) maxReconnectAttempts); [lia|].
Qed.




(** ** The retry policy *)

(** C6, as stated, fails: the first reconnect after an open is not
    scheduled after [1000 * (1 - 1) = 0] but after 1000, the second after
    2000; the counter is incremented before the delay is computed. *)
Lemma first_reconnect_is_delayed_by_1000 :
  reconnectAttempts init = 0
  ∧ scheduled (attemptReconnect init) = [1000]
  ∧ scheduled <$> exec plain_host [ApiConnect; EvOpen 0%nat; EvClose 0%nat] init
    = Some [1000]
  ∧ scheduled <$> exec plain_host
      [ApiConnect; EvOpen 0%nat; EvClose 0%nat; EvTimer 0%nat; EvClose 1%nat] init
    = Some [1000; 2000].
Proof. repeat split; vm_compute; reflexivity. Qed.

Lemma attemptReconnect_iter k : ∀ s,
  reconnectAttempts s = 0 → (k ≤ 5)%nat →
  reconnectAttempts (Nat.iter k attemptReconnect s) = Z.of_nat k
  ∧ scheduled (Nat.iter k attemptReconnect s)
    = scheduled s ++ map (λ i, reconnectDelay * Z.of_nat i) (seq 1 k).
Proof.
  induction k as [|k IH]; intros s H0 Hk.
  - simpl. by rewrite app_nil_r.
  - destruct (IH s H0) as [Ha Hs]; [lia|].
    cbn [Nat.iter nat_rect]. fold (Nat.iter k attemptReconnect s).
    rewrite attemptReconnect_below_max by (unfold maxReconnectAttempts; lia).
    simpl reconnectAttempts. simpl scheduled. rewrite Ha, Hs.
    split; [lia|]. rewrite seq_S, map_app, <- app_assoc. simpl.
    do 3 f_equal. lia.
Qed.

(** C6, amended. While [attempts < 5], [attemptReconnect] first
    increments [attempts] and then schedules [connect()] after
    [1000 * attempts], the new value; the timer, when it fires, calls
    [connect()]. Once [attempts] is 5 it does nothing. So the [k]-th
    consecutive reconnect (k from 1 to 5) is scheduled after [1000 * k]. *)
Theorem attemptReconnect_increments_then_schedules host s :
  (reconnectAttempts s < maxReconnectAttempts →
     reconnectAttempts (attemptReconnect s) = reconnectAttempts s + 1
     ∧ scheduled (attemptReconnect s)
       = scheduled s ++ [reconnectDelay * (reconnectAttempts s + 1)]
     ∧ timers (attemptReconnect s)
       = timers s ++ [reconnectDelay * (reconnectAttempts s + 1)]
     ∧ handle_event host (EvTimer (length (timers s))) (attemptReconnect s)
       = Some (Ok (connect host (set_timers (timers s) (attemptReconnect s)))))
  ∧ (maxReconnectAttempts ≤ reconnectAttempts s → attemptReconnect s = s)
  ∧ (∀ k, reconnectAttempts s = 0 → (k ≤ 5)%nat →
       scheduled (Nat.iter k attemptReconnect s)
       = scheduled s ++ map (λ i, 1000 * Z.of_nat i) (seq 1 k)).
Proof.
  split; [|split].
  - intros Hlt. rewrite attemptReconnect_below_max by done. simpl.
    repeat split; try done.
    rewrite lookup_app_r, Nat.sub_diag by lia. simpl.
    rewrite delete_middle. by rewrite app_nil_r.
  - apply attemptReconnect_at_max.
  - intros k H0 Hk. by apply attemptReconnect_iter.
Qed.

(** ** connect and the handles it leaves behind *)

(** C9, as stated, fails: two calls of [connect()] leave two sockets,
    both of which open; [this.ws] is the second, and a frame arriving on
    the first is still dispatched to the subscribers. *)
Lemma connect_twice_leaves_two_live_handles :
  sockets <$> exec plain_host [ApiConnect; ApiConnect] init
    = Some [CONNECTING; CONNECTING]
  ∧ sockets <$> exec plain_host
      [ApiConnect; EvOpen 0%nat; ApiConnect; EvOpen 1%nat] init
    = Some [OPEN; OPEN]
  ∧ live_handles <$> exec plain_host
      [ApiConnect; EvOpen 0%nat; ApiConnect; EvOpen 1%nat] init
    = Some 2%nat
  ∧ ws <$> exec plain_host
      [ApiConnect; EvOpen 0%nat; ApiConnect; EvOpen 1%nat] init
    = Some (Some 1%nat)
  ∧ calls <$> exec plain_host
      [ApiOn "task_created" 7%nat; ApiConnect; EvOpen 0%nat; ApiConnect;
       EvOpen 1%nat; EvMessage 0%nat (Some ("task_created", Text "t1"))] init
    = Some [(7%nat, Text "t1")].
Proof. repeat split; vm_compute; reflexivity. Qed.

(** C9, amended. [connect()] does not close or release the handle held
    before. When [new WebSocket] returns, the new handle is stored in
    [this.ws] and every earlier socket stays in the state it was in, so
    one more handle is live than before; [this.ws] refers to the newest
    only. When [new WebSocket] throws, no socket is created or closed
    and [this.ws] keeps its value. *)
Theorem connect_keeps_previous_handles host s :
  (new_WebSocket_ok host = true →
     sockets (connect host s) = sockets s ++ [CONNECTING]
     ∧ ws (connect host s) = Some (length (sockets s))
     ∧ (∀ h st, sockets s !! h = Some st → sockets (connect host s) !! h = Some st)
     ∧ live_handles (connect host s) = S (live_handles s))
  ∧ (new_WebSocket_ok host = false →
     sockets (connect host s) = sockets s ∧ ws (connect host s) = ws s).
Proof.
  unfold connect, live_handles. split; intros ->.
  - simpl. repeat split.
    + intros h st Hh. by apply lookup_app_l_Some.
    + rewrite filter_app, length_app. simpl. lia.
  - rewrite sockets_attemptReconnect. split; [done|].
    unfold attemptReconnect. by case_match.
Qed.

(** ** Subscribing during a dispatch pass *)

(** C10, as stated, fails: callback 2, the only subscriber of [update],
    subscribes callback 3 while it is being dispatched. Callback 3 is
    pushed onto the array that [forEach] is iterating, but the pass
    invokes callback 2 only; callback 3 is first invoked by the next
    [emit]. *)
Lemma on_during_dispatch_is_not_invoked_in_that_pass :
  let s := on "update" 2%nat init in
  let s1 := state_of (emit reentrant_host "update" Null s) in
  let s2 := state_of (emit reentrant_host "update" (Text "again") s1) in
  subscribers "update" s = [2%nat]
  ∧ calls s1 = [(2%nat, Null)]
  ∧ listeners s1 !! "update" = listeners s !! "update"
  ∧ subscribers "update" s1 = [2%nat; 3%nat]
  ∧ calls s2 = [(2%nat, Null); (2%nat, Text "again"); (3%nat, Text "again")].
Proof. repeat split; vm_compute; reflexivity. Qed.

Lemma on_same_event e cb s l arr :
  listeners s !! e = Some l → heap s !! l = Some arr →
  listeners (on e cb s) !! e = Some l ∧ heap (on e cb s) !! l = Some (arr ++ [cb]).
Proof.
  intros He Hl. unfold on. rewrite He, He. simpl.
  split; [done|]. by rewrite list_lookup_alter_eq, Hl.
Qed.

Lemma on_other_event e e' cb s l :
  listeners s !! e = Some l → listeners (on e' cb s) !! e = Some l.
Proof.
  intros He. unfold on. destruct (listeners s !! e') as [l'|] eqn:He'.
  - by rewrite He'.
  - simpl. rewrite lookup_insert_eq. simpl.
    rewrite lookup_insert_ne; [done|]. intros ->. congruence.
Qed.

Lemma off_other_event e e' cb s l arr :
  e' ≠ e → listeners s !! e = Some l → heap s !! l = Some arr →
  listeners (off e' cb s) !! e = Some l ∧ heap (off e' cb s) !! l = Some arr.
Proof.
  intros Hne He Hl. unfold off. destruct (listeners s !! e') as [l'|]; [|done].
  simpl. split.
  - by rewrite lookup_insert_ne.
  - by apply lookup_app_l_Some.
Qed.

(** One call that returns and keeps the list of [e], made while [e]
    holds the array at [l]: the table still holds that array afterwards,
    with what it held before at the front, and a callback the call
    subscribed to [e] has been pushed onto it. *)
Lemma run_cmd_keeps_list host e l c s arr :
  calm host c = true → keeps_list e c = true →
  listeners s !! e = Some l → heap s !! l = Some arr →
  ∃ s' ext, run_cmd host c s = Ok s'
    ∧ calls s' = calls s
    ∧ listeners s' !! e = Some l
    ∧ heap s' !! l = Some (arr ++ ext)
    ∧ (∀ cb2, c = COn e cb2 → cb2 ∈ ext).
Proof.
  intros Hcalm Hkeep He Hl.
  destruct c as [e' cb|e' cb|m| | |]; simpl in Hcalm, Hkeep; try done.
  - destruct (decide (e' = e)) as [->|Hne].
    + destruct (on_same_event e cb s l arr He Hl) as [? ?].
      exists (on e cb s), [cb]. simpl. rewrite calls_on. repeat split; try done.
      intros cb2 [= ->]. left.
    + destruct (grows_on e' cb s l arr Hl) as [ext1 Hl1].
      exists (on e' cb s), ext1. simpl. rewrite calls_on.
      repeat split; try done; [by apply on_other_event|].
      intros cb2 [= ? ?]. done.
  - apply negb_true_iff, String.eqb_neq in Hkeep.
    destruct (off_other_event e e' cb s l arr Hkeep He Hl) as [? ?].
    exists (off e' cb s), []. simpl. rewrite calls_off, app_nil_r. by repeat split.
  - destruct (run_cmd_calm host (CSend m) s Hcalm) as [s' Hs'].
    exists s', []. rewrite app_nil_r. split; [done|].
    apply (f_equal state_of) in Hs'. simpl in Hs'. subst s'.
    rewrite calls_send, listeners_send, heap_send. by repeat split.
  - exists (connect host s), []. simpl.
    rewrite calls_connect, listeners_connect, heap_connect, app_nil_r.
    by repeat split.
Qed.

Lemma run_script_keeps_list host e l cs : ∀ s arr,
  forallb (calm host) cs = true → forallb (keeps_list e) cs = true →
  listeners s !! e = Some l → heap s !! l = Some arr →
  ∃ s' ext, run_script host cs s = Ok s'
    ∧ calls s' = calls s
    ∧ listeners s' !! e = Some l
    ∧ heap s' !! l = Some (arr ++ ext)
    ∧ (∀ cb2, In (COn e cb2) cs → cb2 ∈ ext).
Proof.
  induction cs as [|c cs IH]; intros s arr Hcalm Hkeep He Hl; simpl in *.
  - exists s, []. rewrite app_nil_r. by repeat split.
  - apply andb_prop in Hcalm as [Hc Hcalm]. apply andb_prop in Hkeep as [Hk Hkeep].
    destruct (run_cmd_keeps_list host e l c s arr Hc Hk He Hl)
      as (s1 & ext1 & -> & Hc1 & He1 & Hl1 & Hin1).
    cbn [andThen].
    destruct (IH s1 (arr ++ ext1) Hcalm Hkeep He1 Hl1)
      as (s' & ext & Hs' & Hc' & He' & Hl' & Hin').
    exists s', (ext1 ++ ext). split; [done|].
    split; [by rewrite Hc', Hc1|]. split; [done|].
    split; [by rewrite app_assoc|].
    intros cb2 [Heq|Hin]; apply elem_of_app.
    + left. by apply Hin1.
    + right. by apply Hin'.
Qed.

(** The loop of [forEach] when the callbacks of the snapshot [arr]
    return and keep the list of [e]: [c0] is the log before the pass,
    [k] callbacks have been invoked, [ext] has been pushed onto the
    array so far. *)
Lemma forEach_from_keeps_list host e l d c0 arr n : ∀ k s ext,
  (∀ cb, cb ∈ arr → polite host cb) →
  (∀ i cb, arr !! i = Some cb →
     forallb (keeps_list e)
       (callback host cb d (c0 ++ map (λ c, (c, d)) (take i arr))) = true) →
  listeners s !! e = Some l → heap s !! l = Some (arr ++ ext) →
  calls s = c0 ++ map (λ cb, (cb, d)) (take k arr) →
  (k + n = length arr)%nat →
  ∃ s' ext', forEach_from host n k l d s = Ok s'
    ∧ calls s' = c0 ++ map (λ cb, (cb, d)) arr
    ∧ listeners s' !! e = Some l
    ∧ heap s' !! l = Some (arr ++ ext ++ ext')
    ∧ (∀ i cb cb2, (k ≤ i)%nat → arr !! i = Some cb →
         In (COn e cb2) (callback host cb d (c0 ++ map (λ c, (c, d)) (take i arr))) →
         cb2 ∈ ext').
Proof.
  induction n as [|n IH]; intros k s ext Hpol Hkeep He Hl Hc Hlen; simpl.
  - exists s, []. rewrite app_nil_r. split; [done|].
    split; [by rewrite Hc, take_ge by lia|]. split; [done|]. split; [done|].
    intros i cb cb2 Hi Hcb. apply lookup_lt_Some in Hcb. lia.
  - destruct (lookup_lt_is_Some_2 arr k) as [cb Hcb]; [lia|].
    rewrite Hl. simpl. rewrite (lookup_app_l_Some _ _ _ _ Hcb).
    unfold invoke.
    destruct (run_script_keeps_list host e l (callback host cb d (calls s))
                (set_calls (calls s ++ [(cb, d)]) s) (arr ++ ext))
      as (s1 & ext1 & -> & Hc1 & He1 & Hl1 & Hin1).
    { apply Hpol. by eapply list_elem_of_lookup_2. }
    { rewrite Hc. by apply Hkeep. }
    { done. }
    { done. }
    simpl in Hc1. simpl.
    rewrite <- app_assoc in Hl1.
    destruct (IH (S k) s1 (ext ++ ext1) Hpol Hkeep He1 Hl1)
      as (s' & ext' & Hs' & Hc' & He' & Hl' & Hin'); [|lia|].
    { rewrite Hc1, Hc, (take_S_r _ _ _ Hcb), map_app. simpl.
      by rewrite <- app_assoc. }
    exists s', (ext1 ++ ext'). split; [done|]. split; [done|]. split; [done|].
    split; [by rewrite Hl', <- !app_assoc|].
    intros i c cb2 Hi Hc2 Hin. apply elem_of_app.
    destruct (decide (i = k)) as [->|Hne].
    + left. apply Hin1. rewrite Hc. congruence.
    + right. apply (Hin' i c cb2); [lia|done|done].
Qed.

(** C10, amended. Additions made during a dispatch pass are not visible
    to that pass either. Whatever the callbacks subscribed to [e] do
    while they are dispatched, as long as they return normally,
    [emit(e, d)] invokes exactly the callbacks that were in the array
    when the pass started, so a callback [cb2] that one of them
    subscribed to [e] during the pass is not invoked on account of that
    subscription in that pass. If, besides, none of them calls
    [off(e, _)] or [disconnect()] during the pass (either replaces the
    list of [e]; they may call [on], [send], [connect] and [off] for
    other events), every such [cb2] has been pushed onto the array being
    iterated, after the earlier subscribers, the table still holds that
    array, and the next [emit(e, _)] invokes the earlier subscribers and
    then the added ones. *)
Theorem on_during_dispatch_waits_for_next_pass host e d s l arr :
  listeners s !! e = Some l → heap s !! l = Some arr →
  (∀ cb, cb ∈ arr → polite host cb) →
  ∃ s',
    emit host e d s = Ok s'
    ∧ calls s' = calls s ++ map (λ cb, (cb, d)) arr
    ∧ ((∀ i cb, arr !! i = Some cb →
          forallb (keeps_list e)
            (callback host cb d (calls s ++ map (λ c, (c, d)) (take i arr))) = true) →
       ∃ added,
         listeners s' !! e = Some l
         ∧ heap s' !! l = Some (arr ++ added)
         ∧ (∀ i cb cb2, arr !! i = Some cb →
              In (COn e cb2)
                 (callback host cb d (calls s ++ map (λ c, (c, d)) (take i arr))) →
              cb2 ∈ added)
         ∧ (∀ d2, (∀ cb, cb ∈ added → polite host cb) →
              ∃ s'', emit host e d2 s' = Ok s''
                ∧ calls s'' = calls s' ++ map (λ cb, (cb, d2)) (arr ++ added))).
Proof.
  intros He Hl Hpol.
  assert (subscribers e s = arr) as Hsub.
  { unfold subscribers. by rewrite He, Hl. }
  destruct (emit_pass host e d s) as (s' & Hs' & Hc' & _).
  { by rewrite Hsub. }
  rewrite Hsub in Hc'.
  exists s'. split; [done|]. split; [done|]. intros Hkeep.
  destruct (forEach_from_keeps_list host e l d (calls s) arr (length arr) 0 s [])
    as (s1 & added & Hs1 & _ & He' & Hl' & Hin'); try done.
  { by rewrite app_nil_r. }
  { simpl. by rewrite app_nil_r. }
  assert (s1 = s') as ->.
  { unfold emit, forEach in Hs'. rewrite He, Hl in Hs'. simpl in Hs'. congruence. }
  exists added. split; [done|]. split; [done|]. split.
  { intros i cb cb2 Hcb Hin. apply (Hin' i cb cb2); [lia|done|done]. }
  intros d2 Hpol2.
  destruct (emit_pass host e d2 s') as (s'' & Hs'' & Hc'' & _).
  { unfold subscribers. rewrite He', Hl'. simpl.
    intros cb [Hcb|Hcb]%elem_of_app; [by apply Hpol|by apply Hpol2]. }
  exists s''. split; [done|].
  rewrite Hc''. unfold subscribers. by rewrite He', Hl'.
Qed.

(** ** Bounded reconnection *)

(** C4. With [maxReconnectAttempts = 5] and [reconnectDelay = 1000]:
    the counter stays between 0 and 5 in every state the service can
    reach; starting from a counter of 0, however many close events (and
    other events, but no open) follow, at most five reconnects are
    scheduled, so there is no sixth; once the counter is 5, nothing more
    is scheduled and the counter stays 5 for as long as no transport
    opens; and once, besides, no timer is pending and no socket is
    connecting, the service stays that way, scheduling nothing, for as
    long as neither the application nor a callback calls [connect()]. *)
Theorem reconnect_stops_after_five_attempts host :
  (∀ s, reachable host s → 0 ≤ reconnectAttempts s ≤ maxReconnectAttempts)
  ∧ (∀ s tr s',
       reconnectAttempts s = 0 →
       forallb (λ ev, negb (is_open ev)) tr = true →
       exec host tr s = Some s' →
       scheduled s `prefix_of` scheduled s'
       ∧ (length (scheduled s') ≤ length (scheduled s) + 5)%nat
       ∧ reconnectAttempts s' ≤ maxReconnectAttempts)
  ∧ (∀ s tr s',
       reconnectAttempts s = maxReconnectAttempts →
       forallb (λ ev, negb (is_open ev)) tr = true →
       exec host tr s = Some s' →
       scheduled s' = scheduled s ∧ reconnectAttempts s' = maxReconnectAttempts)
  ∧ (∀ s tr s',
       dormant s →
       (∀ cb d hist,
          forallb (λ c, negb (is_connect c)) (callback host cb d hist) = true) →
       forallb (λ ev, negb (is_connect_call ev)) tr = true →
       exec host tr s = Some s' →
       dormant s' ∧ scheduled s' = scheduled s).
Proof.
  split; [|split; [|split]].
  - intros s Hs. by destruct (reachable_Inv host s Hs) as [Hb _].
  - intros s tr s' H0 Htr Hex.
    destruct (exec_stall host tr s s' Htr Hex) as (Hpot & Hpre & Hmax).
    unfold maxReconnectAttempts in *. split; [done|]. split; lia.
  - intros s tr s' H5 Htr Hex.
    destruct (exec_stall host tr s s' Htr Hex) as (Hpot & Hpre & Hmax).
    unfold maxReconnectAttempts in *.
    pose proof (prefix_length _ _ Hpre) as Hlen.
    assert (reconnectAttempts s' = 5) as H5' by lia.
    split; [|done]. symmetry. apply prefix_length_eq; [done|lia].
  - intros s tr s' Hd Hnc Htr Hex. by eapply exec_dormant.
Qed.

(** When [new WebSocket] throws, [connect()] itself runs the retry
    policy: five reconnects are scheduled, the last [connect()] schedules
    none, and no socket is ever created. *)
Example bad_url_retries_stop_at_five :
  scheduled <$> exec bad_url_host bad_url_retries init
    = Some [1000; 2000; 3000; 4000; 5000]
  ∧ timers <$> exec bad_url_host bad_url_retries init = Some []
  ∧ sockets <$> exec bad_url_host bad_url_retries init = Some [].
Proof. repeat split; vm_compute; reflexivity. Qed.

(** ** Opening resets the backoff *)

(** C5. Whenever a transport opens, [onopen] leaves the counter at 0 and
    emits [connected] with [null]: every callback subscribed to
    [connected] is invoked with [null] (they are assumed to return
    normally). A close event that finds the counter at 0 then starts the
    backoff again: the counter becomes 1 and a reconnect is scheduled
    after 1000 (the subscribers of [disconnected] are assumed to return
    normally, since [onclose] notifies them first). *)
Theorem open_resets_backoff host s h r :
  reachable host s → handle_event host (EvOpen h) s = Some r →
  reconnectAttempts (state_of r) = 0
  ∧ ((∀ cb, cb ∈ subscribers "connected" s → polite host cb) →
       ∃ s1, r = Ok s1
         ∧ calls s1 = calls s ++ map (λ cb, (cb, Null)) (subscribers "connected" s))
  ∧ (∀ s2 h2 r2,
       reachable host s2 → reconnectAttempts s2 = 0 →
       (∀ cb, cb ∈ subscribers "disconnected" s2 → polite host cb) →
       handle_event host (EvClose h2) s2 = Some r2 →
       ∃ s3, r2 = Ok s3
         ∧ reconnectAttempts s3 = 1
         ∧ scheduled s3 = scheduled s2 ++ [1000]
         ∧ timers s3 = timers s2 ++ [1000]).
Proof.
  intros Hreach Hr. split; [|split].
  - simpl in Hr. destruct (sockets s !! h) as [st|] eqn:Hh; [|done].
    pose proof (socket_exists_ok host s h st (reachable_Inv host s Hreach) Hh) as Hok.
    destruct st; try done. injection Hr as <-. unfold onopen.
    by destruct (same_retry_emit_ok host "connected" Null
                   (set_reconnectAttempts 0 (set_sockets (<[h:=OPEN]> (sockets s)) s)) Hok)
      as (-> & _ & _).
  - intros Hpol. simpl in Hr. destruct (sockets s !! h) as [[]|]; try done.
    injection Hr as <-. unfold onopen.
    destruct (emit_pass host "connected" Null
                (set_reconnectAttempts 0 (set_sockets (<[h:=OPEN]> (sockets s)) s)))
      as (s1 & Hs1 & Hc1 & _); [exact Hpol|].
    exists s1. split; [done|exact Hc1].
  - intros s2 h2 r2 Hreach2 H0 Hpol Hr2. simpl in Hr2.
    destruct (sockets s2 !! h2) as [st|] eqn:Hh; [|done].
    pose proof (socket_exists_ok host s2 h2 st (reachable_Inv host s2 Hreach2) Hh) as Hok.
    assert (r2 = onclose host (set_sockets (<[h2:=CLOSED]> (sockets s2)) s2)) as ->
      by (destruct st; try done; congruence).
    set (s2c := set_sockets (<[h2:=CLOSED]> (sockets s2)) s2).
    unfold onclose.
    destruct (emit_pass host "disconnected" Null s2c) as (s3 & Hs3 & _ & _);
      [exact Hpol|].
    pose proof (same_retry_emit_ok host "disconnected" Null s2c Hok) as Hsame.
    rewrite Hs3 in Hsame |- *. destruct Hsame as (Ha & Hs & Ht). simpl in *.
    exists (attemptReconnect s3). split; [done|].
    rewrite attemptReconnect_below_max
      by (rewrite Ha, H0; unfold maxReconnectAttempts; lia).
    simpl. rewrite Ha, Hs, Ht, H0. done.
Qed.

(** ** The theorems at work on concrete services *)

(** The callbacks of [reentrant_host] never throw. *)
Lemma reentrant_host_polite cb : polite reentrant_host cb.
Proof. intros d hist. destruct cb as [|[|[|cb]]]; reflexivity. Defined.

(** Callback 0 subscribed twice and callback 1 once: three invocations,
    in subscription order. *)
Lemma emit_invokes_current_subscribers_witness :
  Forall (λ o, inherited (op_event o) = false) sample_ops
  ∧ inherited "update" = false
  ∧ (∀ cb, cb ∈ spec_subscribed sample_ops "update" → polite reentrant_host cb)
  ∧ ∃ s', emit reentrant_host "update" Null
            (fold_left (λ s o, apply_op o s) sample_ops init) = Ok s'
          ∧ calls s' = [(0%nat, Null); (1%nat, Null); (0%nat, Null)].
Proof.
  assert (Forall (λ o, inherited (op_event o) = false) sample_ops) as Hops
    by (repeat constructor).
  assert (inherited "update" = false) as He by reflexivity.
  assert (∀ cb, cb ∈ spec_subscribed sample_ops "update" →
                polite reentrant_host cb) as H
    by (intros cb _; apply reentrant_host_polite).
  split; [exact Hops|]. split; [exact He|]. split; [exact H|].
  destruct (emit_invokes_current_subscribers reentrant_host sample_ops
              "update" Null Hops He H) as [(s' & Hs' & Hc') _].
  exists s'. split; [exact Hs'|exact Hc'].
Defined.

(** Callback 0 unsubscribes itself and callback 1 while it is
    dispatched; callbacks 1 and 2 are invoked all the same. *)
Lemma emit_unaffected_by_off_during_dispatch_witness :
  let s := on "update" 2%nat (on "update" 1%nat (on "update" 0%nat init)) in
  finds_inherited "update" s = false
  ∧ (∀ cb, cb ∈ subscribers "update" s → polite reentrant_host cb)
  ∧ ∃ s', emit reentrant_host "update" (Text "t1") s = Ok s'
          ∧ calls s' = [(0%nat, Text "t1"); (1%nat, Text "t1"); (2%nat, Text "t1")].
Proof.
  intros s.
  assert (finds_inherited "update" s = false) as He by reflexivity.
  assert (∀ cb, cb ∈ subscribers "update" s → polite reentrant_host cb) as H
    by (intros cb _; apply reentrant_host_polite).
  split; [exact He|]. split; [exact H|].
  destruct (emit_unaffected_by_off_during_dispatch reentrant_host "update"
              (Text "t1") s He H) as (s' & Hs' & Hc').
  exists s'. split; [exact Hs'|exact Hc'].
Defined.

(** [send] while the socket is still connecting. *)
Lemma send_when_not_open_is_noop_witness :
  let s := connect plain_host init in
  (∀ h, ws s = Some h → sockets s !! h ≠ Some OPEN)
  ∧ send plain_host (Text "hello") s = Ok s.
Proof.
  assert (∀ h, ws (connect plain_host init) = Some h →
               sockets (connect plain_host init) !! h ≠ Some OPEN) as H.
  { intros h Hh. injection Hh as <-. simpl. discriminate. }
  split; [exact H|].
  exact (send_when_not_open_is_noop plain_host (Text "hello") _ H).
Defined.

(** After [disconnect()], the close event, the reconnect it schedules,
    the new socket opening and a frame for [update] reach nobody. *)
Lemma emit_after_disconnect_invokes_nothing_witness :
  let s := on "update" 1%nat connected_state in
  let s' := default init (exec plain_host stray_events (disconnect s)) in
  forallb (λ ev, negb (is_on_call ev)) stray_events = true
  ∧ exec plain_host stray_events (disconnect s) = Some s'
  ∧ subscribers "update" s = [1%nat]
  ∧ subscribers "update" s' = []
  ∧ emit plain_host "update" (Text "t2") s' = Ok s'.
Proof.
  intros s s'.
  assert (forallb (λ ev, negb (is_on_call ev)) stray_events = true) as H1
    by reflexivity.
  assert (exec plain_host stray_events (disconnect s) = Some s') as H2
    by (vm_compute; reflexivity).
  destruct (emit_after_disconnect_invokes_nothing plain_host s stray_events s'
              "update" (Text "t2") H1 H2) as (_ & H3 & _ & _ & H4).
  split; [exact H1|]. split; [exact H2|].
  split; [vm_compute; reflexivity|]. split; [exact H3|exact (H4 eq_refl)].
Defined.


(** The five reconnects of a new service, and the sixth call. *)
Lemma attemptReconnect_increments_then_schedules_witness :
  reconnectAttempts init < maxReconnectAttempts
  ∧ scheduled (attemptReconnect init) = [1000]
  ∧ scheduled (Nat.iter 5 attemptReconnect init) = [1000; 2000; 3000; 4000; 5000]
  ∧ attemptReconnect (Nat.iter 5 attemptReconnect init)
    = Nat.iter 5 attemptReconnect init.
Proof.
  assert (reconnectAttempts init < maxReconnectAttempts) as H1 by reflexivity.
  split; [exact H1|].
  destruct (attemptReconnect_increments_then_schedules plain_host init)
    as (Hlt & _ & Hk).
  split; [exact (proj1 (proj2 (Hlt H1)))|].
  split; [exact (Hk 5%nat eq_refl (le_n 5))|].
  apply (proj1 (proj2 (attemptReconnect_increments_then_schedules plain_host
                         (Nat.iter 5 attemptReconnect init)))).
  vm_compute. discriminate.
Defined.

(** A second [connect()] on a connected service, and a [connect()] on a
    page whose URL is rejected. *)
Lemma connect_keeps_previous_handles_witness :
  new_WebSocket_ok plain_host = true
  ∧ sockets (connect plain_host connected_state) = [OPEN; CONNECTING]
  ∧ live_handles (connect plain_host connected_state) = 2%nat
  ∧ new_WebSocket_ok bad_url_host = false
  ∧ sockets (connect bad_url_host init) = [].
Proof.
  assert (new_WebSocket_ok plain_host = true) as H1 by reflexivity.
  assert (new_WebSocket_ok bad_url_host = false) as H2 by reflexivity.
  split; [exact H1|].
  destruct (connect_keeps_previous_handles plain_host connected_state)
    as [Hok _].
  destruct (Hok H1) as (Hs & _ & _ & Hl).
  split; [exact Hs|]. split; [exact Hl|]. split; [exact H2|].
  exact (proj1 (proj2 (connect_keeps_previous_handles bad_url_host init) H2)).
Defined.

(** Callback 2 subscribes callback 3 while it is dispatched. *)
Lemma on_during_dispatch_waits_for_next_pass_witness :
  let s := on "update" 2%nat init in
  listeners s !! "update" = Some 0%nat
  ∧ heap s !! 0%nat = Some [2%nat]
  ∧ (∀ cb, cb ∈ [2%nat] → polite reentrant_host cb)
  ∧ (∀ i cb, [2%nat] !! i = Some cb →
       forallb (keeps_list "update")
         (callback reentrant_host cb Null
            (calls s ++ map (λ c, (c, Null)) (take i [2%nat]))) = true)
  ∧ ∃ s' added, emit reentrant_host "update" Null s = Ok s'
      ∧ calls s' = [(2%nat, Null)]
      ∧ heap s' !! 0%nat = Some ([2%nat] ++ added)
      ∧ 3%nat ∈ added.
Proof.
  intros s.
  assert (listeners s !! "update" = Some 0%nat) as H1 by reflexivity.
  assert (heap s !! 0%nat = Some [2%nat]) as H2 by reflexivity.
  assert (∀ cb, cb ∈ [2%nat] → polite reentrant_host cb) as H3
    by (intros cb _; apply reentrant_host_polite).
  assert (∀ i cb, [2%nat] !! i = Some cb →
            forallb (keeps_list "update")
              (callback reentrant_host cb Null
                 (calls s ++ map (λ c, (c, Null)) (take i [2%nat]))) = true)
    as H4.
  { intros i cb Hcb. apply list_elem_of_lookup_2, list_elem_of_singleton in Hcb.
    subst cb. reflexivity. }
  split; [exact H1|]. split; [exact H2|]. split; [exact H3|]. split; [exact H4|].
  destruct (on_during_dispatch_waits_for_next_pass reentrant_host "update" Null
              s 0%nat [2%nat] H1 H2 H3) as (s' & Hs' & Hc' & Hkeep).
  destruct (Hkeep H4) as (added & _ & Hl' & Hin & _).
  exists s', added. split; [exact Hs'|]. split; [exact Hc'|]. split; [exact Hl'|].
  apply (Hin 0%nat 2%nat 3%nat); [reflexivity|]. left. reflexivity.
Defined.

(** Five reconnects fail one after the other; then the service is at
    rest, whatever else the application does short of [connect()]. *)
Lemma reconnect_stops_after_five_attempts_witness :
  reachable plain_host gave_up_state
  ∧ 0 ≤ reconnectAttempts gave_up_state ≤ maxReconnectAttempts
  ∧ reconnectAttempts connected_state = 0
  ∧ forallb (λ ev, negb (is_open ev)) six_failures = true
  ∧ exec plain_host six_failures connected_state = Some gave_up_state
  ∧ scheduled gave_up_state = [1000; 2000; 3000; 4000; 5000]
  ∧ (length (scheduled gave_up_state) ≤ length (scheduled connected_state) + 5)%nat
  ∧ reconnectAttempts gave_up_state = maxReconnectAttempts
  ∧ (∃ s', exec plain_host [ApiConnect; EvClose 6%nat] gave_up_state = Some s'
       ∧ scheduled s' = scheduled gave_up_state
       ∧ reconnectAttempts s' = maxReconnectAttempts)
  ∧ dormant gave_up_state
  ∧ forallb (λ ev, negb (is_connect_call ev)) idle_events = true
  ∧ ∃ s', exec plain_host idle_events gave_up_state = Some s'
      ∧ dormant s' ∧ scheduled s' = scheduled gave_up_state.
Proof.
  destruct (reconnect_stops_after_five_attempts plain_host)
    as (Hbound & Hfive & Hstop & Hdormant).
  assert (reachable plain_host gave_up_state) as Hreach.
  { exists ([ApiConnect; EvOpen 0%nat] ++ six_failures). vm_compute. reflexivity. }
  assert (reconnectAttempts connected_state = 0) as H0 by reflexivity.
  assert (forallb (λ ev, negb (is_open ev)) six_failures = true) as Htr
    by reflexivity.
  assert (exec plain_host six_failures connected_state = Some gave_up_state) as Hex
    by (vm_compute; reflexivity).
  assert (dormant gave_up_state) as Hd.
  { split; [reflexivity|]. split; [reflexivity|].
    unfold no_connecting. apply (bool_decide_unpack _). vm_compute. exact I. }
  assert (forallb (λ ev, negb (is_connect_call ev)) idle_events = true) as Hidle
    by reflexivity.
  split; [exact Hreach|]. split; [exact (Hbound _ Hreach)|].
  split; [exact H0|]. split; [exact Htr|]. split; [exact Hex|].
  split; [vm_compute; reflexivity|].
  split; [exact (proj1 (proj2 (Hfive _ _ _ H0 Htr Hex)))|].
  split; [reflexivity|].
  split.
  { exists (default init (exec plain_host [ApiConnect; EvClose 6%nat] gave_up_state)).
    assert (exec plain_host [ApiConnect; EvClose 6%nat] gave_up_state
            = Some (default init
                      (exec plain_host [ApiConnect; EvClose 6%nat] gave_up_state)))
      as Hex6 by (vm_compute; reflexivity).
    split; [exact Hex6|].
    exact (Hstop gave_up_state [ApiConnect; EvClose 6%nat] _ eq_refl eq_refl Hex6). }
  split; [exact Hd|]. split; [exact Hidle|].
  exists (default init (exec plain_host idle_events gave_up_state)).
  assert (exec plain_host idle_events gave_up_state
          = Some (default init (exec plain_host idle_events gave_up_state))) as Hex'
    by (vm_compute; reflexivity).
  split; [exact Hex'|].
  exact (Hdormant _ _ _ Hd (λ _ _ _, eq_refl) Hidle Hex').
Defined.

(** A first open, then a first close. *)
Lemma open_resets_backoff_witness :
  reachable plain_host before_open
  ∧ ∃ r, handle_event plain_host (EvOpen 0%nat) before_open = Some r
      ∧ reconnectAttempts (state_of r) = 0
      ∧ ∃ s1, r = Ok s1 ∧ calls s1 = [(1%nat, Null)]
          ∧ ∃ s3, handle_event plain_host (EvClose 0%nat) s1 = Some (Ok s3)
              ∧ reconnectAttempts s3 = 1 ∧ scheduled s3 = [1000].
Proof.
  assert (reachable plain_host before_open) as Hreach.
  { exists [ApiOn "connected" 1%nat; ApiOn "disconnected" 2%nat; ApiConnect].
    vm_compute. reflexivity. }
  split; [exact Hreach|].
  set (r := default (Ok init) (handle_event plain_host (EvOpen 0%nat) before_open)).
  assert (handle_event plain_host (EvOpen 0%nat) before_open = Some r) as Hr
    by (vm_compute; reflexivity).
  destruct (open_resets_backoff plain_host before_open 0%nat r Hreach Hr)
    as (Ha & Hconn & Hclose).
  exists r. split; [exact Hr|]. split; [exact Ha|].
  destruct (Hconn (λ _ _ _ _, eq_refl)) as (s1 & Hs1 & Hc1).
  exists s1. split; [exact Hs1|].
  assert (s1 = state_of r) as Es1 by (by rewrite Hs1).
  split; [rewrite Es1; vm_compute; reflexivity|].
  assert (reachable plain_host s1) as Hreach1.
  { exists [ApiOn "connected" 1%nat; ApiOn "disconnected" 2%nat; ApiConnect;
            EvOpen 0%nat].
    rewrite Es1. vm_compute. reflexivity. }
  assert (reconnectAttempts s1 = 0) as H0 by (rewrite Es1; exact Ha).
  set (r2 := default (Ok init) (handle_event plain_host (EvClose 0%nat) s1)).
  assert (handle_event plain_host (EvClose 0%nat) s1 = Some r2) as Hr2
    by (unfold r2; rewrite Es1; vm_compute; reflexivity).
  destruct (Hclose s1 0%nat r2 Hreach1 H0 (λ _ _ _ _, eq_refl) Hr2)
    as (s3 & Hs3 & Ha3 & Hsch3 & _).
  exists s3. split; [by rewrite Hr2, Hs3|]. split; [exact Ha3|].
  rewrite Hsch3, Es1. vm_compute. reflexivity.
Defined.

(** * Further properties of the service *)

(** ** States the service can reach are consistent *)

Lemma wf_same s s' :
  listeners s' = listeners s → heap s' = heap s → wf s → wf s'.
Proof. unfold wf. intros -> ->. done. Qed.

Lemma listeners_ws_close h s : listeners (ws_close h s) = listeners s.
Proof. unfold ws_close. by repeat case_match. Qed.

Lemma length_sockets_ws_close h s :
  length (sockets (ws_close h s)) = length (sockets s).
Proof. unfold ws_close. repeat case_match; simpl; by rewrite ?length_insert. Qed.

Lemma wire_ws_close h s : wire (ws_close h s) = wire s.
Proof. unfold ws_close. by repeat case_match. Qed.

Lemma wire_opened_insert s h st :
  st ≠ CONNECTING → wire_opened s →
  wire_opened (set_sockets (<[h := st]> (sockets s)) s).
Proof.
  intros Hst Hw h' text Hin. simpl in *.
  destruct (Hw h' text Hin) as (st' & Hh' & Hst').
  destruct (decide (h = h')) as [->|Hne].
  - exists st. split; [|done]. apply list_lookup_insert_eq. by eapply lookup_lt_Some.
  - exists st'. by rewrite list_lookup_insert_ne.
Qed.

Lemma wire_opened_ws_close h s : wire_opened s → wire_opened (ws_close h s).
Proof.
  intros Hw. unfold ws_close.
  repeat case_match; try done; by apply wire_opened_insert.
Qed.

Lemma consistent_set_sockets s h st :
  st ≠ CONNECTING → consistent s →
  consistent (set_sockets (<[h := st]> (sockets s)) s).
Proof.
  intros Hst (Hwf & Hws & Hb & Hd & Ht & Hw).
  split; [exact Hwf|]. split.
  { intros h' Hh'. simpl in *. rewrite length_insert. by apply Hws. }
  split; [exact Hb|]. split; [exact Hd|]. split; [exact Ht|].
  by apply wire_opened_insert.
Qed.

Lemma consistent_set_calls v s : consistent s → consistent (set_calls v s).
Proof. intros H. exact H. Qed.

Lemma consistent_on e cb s : consistent s → consistent (on e cb s).
Proof.
  intros (Hwf & Hws & Hb & Hd & Ht & Hw).
  destruct (same_retry_on e cb s) as (Ha' & Hs' & Ht').
  assert (ws (on e cb s) = ws s) as Hws' by (unfold on; by repeat case_match).
  assert (wire (on e cb s) = wire s) as Hw' by (unfold on; by repeat case_match).
  unfold consistent, ws_is_latest, bounded, wire_opened.
  rewrite Ha', Hs', Ht', Hws', Hw', sockets_on.
  split; [by apply wf_on|]. done.
Qed.

Lemma consistent_off e cb s : consistent s → consistent (off e cb s).
Proof.
  intros (Hwf & Hws & Hb & Hd & Ht & Hw).
  destruct (same_retry_off e cb s) as (Ha' & Hs' & Ht').
  assert (ws (off e cb s) = ws s) as Hws' by (unfold off; by case_match).
  assert (wire (off e cb s) = wire s) as Hw' by (unfold off; by case_match).
  unfold consistent, ws_is_latest, bounded, wire_opened.
  rewrite Ha', Hs', Ht', Hws', Hw', sockets_off.
  split; [by apply wf_off|]. done.
Qed.

Lemma consistent_send host m s :
  consistent s → consistent (state_of (send host m s)).
Proof.
  intros Hc. unfold send. destruct (ws s) as [h|]; [|done].
  case_decide as Hopen; [|done]. destruct (JSON_stringify host m) as [text|]; [|done].
  destruct Hc as (Hwf & Hws & Hb & Hd & Ht & Hw).
  split; [exact Hwf|]. split; [exact Hws|]. split; [exact Hb|].
  split; [exact Hd|]. split; [exact Ht|].
  intros h' text' Hin. simpl in *.
  apply elem_of_app in Hin as [Hin|Hin]; [exact (Hw h' text' Hin)|].
  apply list_elem_of_singleton in Hin. injection Hin as -> ->.
  by exists OPEN.
Qed.

Lemma backoff_delay_valid a :
  0 ≤ a < maxReconnectAttempts → reconnectDelay * (a + 1) ∈ backoff_delays.
Proof.
  unfold maxReconnectAttempts, reconnectDelay, backoff_delays. intros Ha.
  assert (a = 0 ∨ a = 1 ∨ a = 2 ∨ a = 3 ∨ a = 4) as Hcases by lia.
  clear Ha. destruct Hcases as [H|[H|[H|[H|H]]]]; subst a; simpl; set_solver.
Qed.

Lemma consistent_attemptReconnect s :
  consistent s → consistent (attemptReconnect s).
Proof.
  intros (Hwf & Hws & Hb & Hd & Ht & Hw).
  destruct (Z.lt_ge_cases (reconnectAttempts s) maxReconnectAttempts) as [Hlt|Hge].
  - rewrite attemptReconnect_below_max by done.
    split; [exact Hwf|]. split; [exact Hws|]. split.
    { unfold bounded in *. simpl. lia. }
    split.
    { simpl. apply Forall_app. split; [exact Hd|].
      apply Forall_singleton, backoff_delay_valid. unfold bounded in Hb. lia. }
    split; [|exact Hw].
    simpl. by apply sublist_app.
  - by rewrite attemptReconnect_at_max.
Qed.

Lemma consistent_connect host s : consistent s → consistent (connect host s).
Proof.
  intros Hc. unfold connect.
  destruct (new_WebSocket_ok host); [|by apply consistent_attemptReconnect].
  destruct Hc as (Hwf & Hws & Hb & Hd & Ht & Hw).
  split; [exact Hwf|]. split.
  { intros h Hh. simpl in *. injection Hh as <-. rewrite length_app. simpl. lia. }
  split; [exact Hb|]. split; [exact Hd|]. split; [exact Ht|].
  intros h text Hin. simpl in *.
  destruct (Hw h text Hin) as (st & Hst & Hne).
  exists st. split; [by apply lookup_app_l_Some|done].
Qed.

Lemma consistent_disconnect s : consistent s → consistent (disconnect s).
Proof.
  intros (Hwf & Hws & Hb & Hd & Ht & Hw).
  assert (wf (set_listeners ∅ s)) as Hwf0.
  { split; intros *; simpl; by rewrite lookup_empty. }
  unfold disconnect. destruct (ws s) as [h|] eqn:Hh.
  - destruct (same_retry_ws_close h s) as (Ha' & Hs' & Ht').
    split.
    { split; intros *; simpl; by rewrite lookup_empty. }
    split; [done|]. split; [unfold bounded in *; simpl; by rewrite Ha'|].
    split; [simpl; by rewrite Hs'|]. split; [simpl; by rewrite Hs', Ht'|].
    by apply (wire_opened_ws_close h s).
  - split; [exact Hwf0|]. split; [exact Hws|]. done.
Qed.

Lemma consistent_cmd host c s :
  consistent s → consistent (state_of (run_cmd host c s)).
Proof.
  destruct c; simpl; auto using consistent_on, consistent_off, consistent_send,
    consistent_connect, consistent_disconnect.
Qed.

Lemma consistent_emit host e d s :
  consistent s → consistent (state_of (emit host e d s)).
Proof.
  apply (lift_emit host (λ s s', consistent s → consistent s') (λ _, true));
    [by intros s0|intros s1 s2 s3 H12 H23 H1; auto
    |intros c s0 _; apply consistent_cmd
    |intros v s0 H; exact H
    |intros cb d' hist; by apply forallb_forall].
Qed.

Lemma consistent_init : consistent init.
Proof.
  split; [apply wf_init|]. split; [done|]. split.
  { unfold bounded, maxReconnectAttempts. simpl. lia. }
  split; [by constructor|]. split; [done|].
  intros h text Hin. simpl in Hin. by apply elem_of_nil in Hin.
Qed.

Lemma handle_event_consistent host ev s r :
  handle_event host ev s = Some r → consistent s → consistent (state_of r).
Proof.
  intros Hr Hc. destruct ev; simpl in Hr.
  - injection Hr as <-. by apply consistent_connect.
  - injection Hr as <-. by apply consistent_disconnect.
  - injection Hr as <-. by apply consistent_on.
  - injection Hr as <-. by apply consistent_off.
  - injection Hr as <-. by apply consistent_send.
  - destruct (sockets s !! h) as [[]|]; try done. injection Hr as <-.
    unfold onopen. apply consistent_emit.
    pose proof (consistent_set_sockets s h OPEN ltac:(done) Hc)
      as (Hwf & Hws & Hb & Hd & Ht & Hw).
    split; [exact Hwf|]. split; [exact Hws|]. split; [|done].
    unfold bounded, maxReconnectAttempts. simpl. lia.
  - destruct (sockets s !! h) as [[]|]; try done. injection Hr as <-.
    unfold onmessage. destruct frame as [[ty d]|]; [|done].
    by apply consistent_emit.
  - destruct (sockets s !! h); [|done]. injection Hr as <-.
    by apply consistent_emit.
  - pose proof (consistent_set_sockets s h CLOSED ltac:(done) Hc) as Hc0.
    assert (r = onclose host (set_sockets (<[h:=CLOSED]> (sockets s)) s)) as ->
      by (destruct (sockets s !! h) as [[]|]; try done; congruence).
    unfold onclose.
    pose proof (consistent_emit host "disconnected" Null _ Hc0) as He.
    destruct (emit host "disconnected" Null _) as [s1|s1]; simpl in *; [|done].
    by apply consistent_attemptReconnect.
  - destruct (timers s !! i); [|done]. injection Hr as <-.
    apply consistent_connect.
    destruct Hc as (Hwf & Hws & Hb & Hd & Ht & Hw).
    split; [exact Hwf|]. split; [exact Hws|]. split; [exact Hb|].
    split; [exact Hd|]. split; [|exact Hw].
    simpl. etrans; [apply sublist_delete|exact Ht].
Qed.

Lemma exec_consistent host tr : ∀ s s',
  consistent s → exec host tr s = Some s' → consistent s'.
Proof.
  induction tr as [|ev tr IH]; intros s s' Hc Hex; simpl in *.
  - by injection Hex as <-.
  - destruct (handle_event host ev s) as [r|] eqn:Hr; [|done].
    apply (IH (state_of r)); [|done]. by eapply handle_event_consistent.
Qed.

Lemma reachable_consistent host s : reachable host s → consistent s.
Proof. intros [tr Htr]. eapply exec_consistent; [apply consistent_init|exact Htr]. Qed.

(** X3. In every state the service can reach, each name of the table
    holds an array of its own, and [this.ws], when set, is the socket
    that [connect()] created last. *)
Theorem reachable_states_are_well_formed host s :
  reachable host s → wf s ∧ ws_is_latest s.
Proof.
  intros Hr. destruct (reachable_consistent host s Hr) as (Hwf & Hws & _).
  by split.
Qed.

(** X10. However the service got where it is, every reconnect it ever
    scheduled waits 1000, 2000, 3000, 4000 or 5000, never 0 and never
    longer, and the timers still pending are among those scheduled. *)
Theorem scheduled_delays_are_bounded host s :
  reachable host s →
  Forall (λ d, d ∈ backoff_delays) (scheduled s)
  ∧ Forall (λ d, 1000 ≤ d ≤ 5000) (timers s)
  ∧ timers s `sublist_of` scheduled s.
Proof.
  intros Hr.
  destruct (reachable_consistent host s Hr) as (_ & _ & _ & Hd & Ht & _).
  split; [exact Hd|]. split; [|exact Ht].
  apply Forall_forall. intros d Hd0.
  pose proof (elem_of_sublist _ _ _ Hd0 Ht) as Hd1.
  rewrite Forall_forall in Hd. apply Hd in Hd1.
  unfold backoff_delays in Hd1.
  repeat (apply elem_of_cons in Hd1 as [->|Hd1]; [lia|]).
  by apply elem_of_nil in Hd1.
Qed.

(** X7. Every frame the service has written went to a socket that
    exists and had opened: nothing is ever written to a socket that is
    still connecting. *)
Theorem frames_go_to_opened_sockets host s h text :
  reachable host s → (h, text) ∈ wire s →
  ∃ st, sockets s !! h = Some st ∧ st ≠ CONNECTING.
Proof.
  intros Hr Hin.
  destruct (reachable_consistent host s Hr) as (_ & _ & _ & _ & _ & Hw).
  exact (Hw h text Hin).
Qed.

(** ** on and off *)

(** X1. [off(e, cb)] removes every registration of [cb] for [e], keeps
    the other subscribers of [e] in order, leaves every other event
    alone, and changes nothing at all when [e] has no list. *)
Theorem off_removes_every_registration e cb s :
  wf s →
  subscribers e (off e cb s) = filter (λ c, c ≠ cb) (subscribers e s)
  ∧ (cb ∉ subscribers e (off e cb s))
  ∧ (∀ e', e' ≠ e → subscribers e' (off e cb s) = subscribers e' s)
  ∧ (listeners s !! e = None → off e cb s = s).
Proof.
  intros Hwf.
  assert (subscribers e (off e cb s) = filter (λ c, c ≠ cb) (subscribers e s)) as Heq.
  { rewrite subscribers_off by done. rewrite decide_True by done.
    symmetry. apply filter_remove_all. }
  split; [exact Heq|]. split; [|split].
  - rewrite Heq. intros [Hne _]%list_elem_of_filter. by apply Hne.
  - intros e' Hne. rewrite subscribers_off by done. by rewrite decide_False.
  - intros Hnone. unfold off. by rewrite Hnone.
Qed.

Lemma filter_absent cb (l : list nat) :
  cb ∉ l → filter (λ c, c ≠ cb) l = l.
Proof.
  induction l as [|c l IH]; [done|]. intros [Hne Hnin]%not_elem_of_cons.
  rewrite filter_cons_True by done. by rewrite IH.
Qed.

(** X2. [on(e, cb)] adds one registration at the end of the list of [e]
    and leaves every other event alone. A following [off(e, cb)] removes
    it together with every earlier registration of [cb]: the two calls
    cancel out exactly when [cb] was not subscribed to [e] before. The
    lookup of [e] is assumed not to find an inherited member
    ([constructor], [toString], ...), for which [on] throws a
    [TypeError] and registers nothing. *)
Theorem on_then_off e cb s :
  wf s →
  finds_inherited e s = false →
  subscribers e (on e cb s) = subscribers e s ++ [cb]
  ∧ (∀ e', e' ≠ e → subscribers e' (on e cb s) = subscribers e' s)
  ∧ subscribers e (off e cb (on e cb s)) = filter (λ c, c ≠ cb) (subscribers e s)
  ∧ (subscribers e (off e cb (on e cb s)) = subscribers e s ↔ cb ∉ subscribers e s).
Proof.
  intros Hwf _.
  assert (subscribers e (on e cb s) = subscribers e s ++ [cb]) as Hon.
  { rewrite subscribers_on by done. by rewrite decide_True. }
  assert (subscribers e (off e cb (on e cb s))
          = filter (λ c, c ≠ cb) (subscribers e s)) as Hoff.
  { rewrite subscribers_off by (by apply wf_on). rewrite decide_True by done.
    rewrite Hon, <- filter_remove_all, filter_app.
    rewrite (filter_cons_False _ cb) by (intros H; by apply H).
    by rewrite filter_nil, app_nil_r. }
  split; [exact Hon|]. split; [|split; [exact Hoff|]].
  - intros e' Hne. rewrite subscribers_on by done. by rewrite decide_False.
  - rewrite Hoff. split.
    + intros Heq Hin. rewrite <- Heq in Hin.
      apply list_elem_of_filter in Hin as [Hne _]. by apply Hne.
    + apply filter_absent.
Qed.

(** ** Subscribers that throw *)

Lemma run_script_throwing host cs : ∀ s,
  throwing host cs = true →
  ∃ s', run_script host cs s = Throw s' ∧ calls s' = calls s.
Proof.
  induction cs as [|c cs IH]; intros s Hcs; [done|].
  destruct (is_throw c) eqn:Hc.
  - destruct c; try done. exists s. done.
  - assert (calm host c && throwing host cs = true) as Hand
      by (destruct c; done).
    apply andb_prop in Hand as [Hcalm Hrest].
    destruct (run_cmd_calm host c s Hcalm) as [s1 Hs1].
    destruct (IH s1 Hrest) as (s' & Hs' & Hc').
    exists s'. simpl. rewrite Hs1. simpl. split; [done|].
    rewrite Hc'. pose proof (calls_cmd host c s) as Hcc. by rewrite Hs1 in Hcc.
Qed.

Lemma forEach_from_stops host l d cb pre post n : ∀ k s ext,
  heap s !! l = Some ((pre ++ cb :: post) ++ ext) →
  (k ≤ length pre)%nat →
  (k + n = length (pre ++ cb :: post))%nat →
  (∀ c, c ∈ pre → polite host c) →
  rude host cb d →
  ∃ s', forEach_from host n k l d s = Throw s'
        ∧ calls s' = calls s ++ map (λ c, (c, d)) (drop k pre ++ [cb]).
Proof.
  induction n as [|n IH]; intros k s ext Hl Hk Hlen Hpol Hrude.
  - rewrite length_app in Hlen. simpl in Hlen. lia.
  - simpl. rewrite Hl. simpl.
    destruct (decide (k = length pre)) as [->|Hne].
    + rewrite lookup_app_l by (rewrite length_app; simpl; lia).
      rewrite list_lookup_middle by done.
      unfold invoke.
      destruct (run_script_throwing host (callback host cb d (calls s))
                  (set_calls (calls s ++ [(cb, d)]) s) (Hrude (calls s)))
        as (s' & -> & Hc').
      exists s'. split; [done|]. rewrite drop_all. exact Hc'.
    + destruct (lookup_lt_is_Some_2 pre k) as [c Hc]; [lia|].
      rewrite lookup_app_l by (rewrite length_app; simpl; lia).
      rewrite (lookup_app_l_Some _ _ _ _ Hc).
      destruct (invoke_polite host c d s) as (s1 & -> & Hc1 & Hg1).
      { apply Hpol. by eapply list_elem_of_lookup_2. }
      simpl. destruct (Hg1 _ _ Hl) as [ext1 Hl1]. rewrite <- app_assoc in Hl1.
      destruct (IH (S k) s1 (ext ++ ext1) Hl1) as (s' & Hs' & Hc'); [lia|lia|done|done|].
      exists s'. split; [done|].
      rewrite Hc', Hc1, (drop_S _ _ _ Hc). simpl. by rewrite <- app_assoc.
Qed.

(** X4. Exceptions of subscribers are not caught by [emit]: when the
    subscribers of [e] are [pre], then [cb], then [post], the callbacks
    of [pre] return and [cb] throws, [emit(e, d)] itself throws, having
    invoked [pre] and [cb] once each in order and none of [post]. *)
Theorem emit_stops_at_first_throwing_subscriber host e d s pre cb post :
  subscribers e s = pre ++ cb :: post →
  (∀ c, c ∈ pre → polite host c) →
  rude host cb d →
  ∃ s', emit host e d s = Throw s'
        ∧ calls s' = calls s ++ map (λ c, (c, d)) (pre ++ [cb]).
Proof.
  unfold subscribers, emit, forEach. intros Hsubs Hpol Hrude.
  destruct (listeners s !! e) as [l|]; [|by destruct pre].
  destruct (heap s !! l) as [arr|] eqn:Hl; [|by destruct pre].
  simpl in Hsubs. subst arr. simpl.
  destruct (forEach_from_stops host l d cb pre post
              (length (pre ++ cb :: post)) 0 s [])
    as (s' & Hs' & Hc'); try done.
  - by rewrite app_nil_r.
  - lia.
  - exists s'. by rewrite drop_0 in Hc'.
Qed.

(** X5. [onclose] notifies before it retries, so a subscriber of
    [disconnected] that throws keeps [attemptReconnect] from running:
    the handler ends in the exception, no reconnect is scheduled, and
    the counter stays where it was. *)
Theorem throwing_disconnected_subscriber_prevents_reconnect
    host s h r pre cb post :
  reachable host s →
  handle_event host (EvClose h) s = Some r →
  subscribers "disconnected" s = pre ++ cb :: post →
  (∀ c, c ∈ pre → polite host c) →
  rude host cb Null →
  (∃ s', r = Throw s')
  ∧ scheduled (state_of r) = scheduled s
  ∧ timers (state_of r) = timers s
  ∧ reconnectAttempts (state_of r) = reconnectAttempts s.
Proof.
  intros Hreach Hr Hsubs Hpol Hrude. simpl in Hr.
  destruct (sockets s !! h) as [st|] eqn:Hh; [|done].
  pose proof (socket_exists_ok host s h st (reachable_Inv host s Hreach) Hh) as Hok.
  assert (r = onclose host (set_sockets (<[h:=CLOSED]> (sockets s)) s)) as ->
    by (destruct st; try done; congruence).
  set (sc := set_sockets (<[h:=CLOSED]> (sockets s)) s).
  destruct (emit_stops_at_first_throwing_subscriber host "disconnected" Null sc
              pre cb post Hsubs Hpol Hrude) as (s' & Hs' & _).
  pose proof (same_retry_emit_ok host "disconnected" Null sc Hok) as Hsame.
  unfold onclose. rewrite Hs' in Hsame |- *. simpl in *.
  destruct Hsame as (Ha & Hsch & Ht).
  split; [by exists s'|]. done.
Qed.

(** ** Inbound frames *)

Lemma emit_no_subscribers host e d s :
  subscribers e s = [] → emit host e d s = Ok s.
Proof.
  unfold subscribers, emit, forEach. intros Hs.
  destruct (listeners s !! e) as [l|]; [|done].
  destruct (heap s !! l) as [arr|]; simpl in *; [|done]. by subst arr.
Qed.

(** X6. [onmessage] never lets an exception out: whatever the frame and
    whatever the subscribers do, the handler returns. A frame that does
    not parse changes nothing; so does a frame whose type has no
    subscriber. A frame of type [ty] with data [d] is delivered to the
    subscribers of [ty], once each and in order, when they return
    normally. No frame touches the retry state. *)
Theorem onmessage_never_throws host s h frame r :
  reachable host s →
  handle_event host (EvMessage h frame) s = Some r →
  (∃ s', r = Ok s')
  ∧ same_retry s (state_of r)
  ∧ (frame = None → r = Ok s)
  ∧ (∀ ty d, frame = Some (ty, d) → subscribers ty s = [] → r = Ok s)
  ∧ (∀ ty d, frame = Some (ty, d) →
       (∀ cb, cb ∈ subscribers ty s → polite host cb) →
       calls (state_of r) = calls s ++ map (λ cb, (cb, d)) (subscribers ty s)).
Proof.
  intros Hreach Hr. simpl in Hr.
  destruct (sockets s !! h) as [st|] eqn:Hh; [|done].
  pose proof (socket_exists_ok host s h st (reachable_Inv host s Hreach) Hh) as Hok.
  destruct st; try done. injection Hr as <-. unfold onmessage.
  destruct frame as [[ty d]|].
  - split; [by eexists|]. split; [by apply same_retry_emit_ok|].
    split; [done|]. split.
    + intros ty' d' [= <- <-] Hnone. by rewrite emit_no_subscribers.
    + intros ty' d' [= <- <-] Hpol.
      destruct (emit_pass host ty d s Hpol) as (s' & -> & Hc & _). exact Hc.
  - split; [by eexists|]. split; [done|]. split; [done|]. split; intros; done.
Qed.

(** ** disconnect *)

(** X8. [disconnect()] cancels no timer and does not reset the retry
    counter: a reconnect that was pending is still pending afterwards,
    and when its timer fires [connect()] runs; if [new WebSocket]
    succeeds, the service holds a new connecting socket although the
    application had disconnected. *)
Theorem disconnect_keeps_pending_timers host s i d :
  timers s !! i = Some d →
  timers (disconnect s) = timers s
  ∧ scheduled (disconnect s) = scheduled s
  ∧ reconnectAttempts (disconnect s) = reconnectAttempts s
  ∧ ∃ s', handle_event host (EvTimer i) (disconnect s) = Some (Ok s')
      ∧ (new_WebSocket_ok host = true →
           ws s' = Some (length (sockets s))
           ∧ sockets s' !! length (sockets s) = Some CONNECTING).
Proof.
  intros Hi. destruct (same_retry_disconnect s) as (Ha & Hs & Ht).
  split; [exact Ht|]. split; [exact Hs|]. split; [exact Ha|].
  assert (length (sockets (disconnect s)) = length (sockets s)) as Hlen.
  { unfold disconnect. destruct (ws s) as [h|]; simpl; [|done].
    apply length_sockets_ws_close. }
  rewrite <- Ht in Hi. clear Ha Hs Ht.
  remember (disconnect s) as sd eqn:Hsd. clear Hsd.
  simpl. rewrite Hi. eexists. split; [done|].
  intros Hok. unfold connect. rewrite Hok. simpl.
  rewrite Hlen. split; [done|].
  rewrite lookup_app_r by lia. by rewrite Hlen, Nat.sub_diag.
Qed.

(** X9. [disconnect()] twice is [disconnect()] once. After it [this.ws]
    is null, the socket it held is neither connecting nor open any more,
    and [send] drops every message. *)
Theorem disconnect_is_idempotent host s :
  disconnect (disconnect s) = disconnect s
  ∧ ws (disconnect s) = None
  ∧ (∀ h, ws s = Some h →
       sockets (disconnect s) !! h ≠ Some OPEN
       ∧ sockets (disconnect s) !! h ≠ Some CONNECTING)
  ∧ (∀ m, send host m (disconnect s) = Ok (disconnect s)).
Proof.
  assert (ws (disconnect s) = None) as Hnone
    by (unfold disconnect; destruct (ws s) eqn:E; simpl; done).
  split; [|split; [exact Hnone|split]].
  - unfold disconnect at 1. rewrite Hnone.
    pose proof (listeners_disconnect s) as Hl.
    destruct (disconnect s). simpl in *. by subst.
  - intros h Hh. unfold disconnect. rewrite Hh. simpl. unfold ws_close.
    destruct (sockets s !! h) as [st|] eqn:Hst.
    + assert (h < length (sockets s))%nat by (by eapply lookup_lt_Some).
      destruct st; simpl; rewrite ?list_lookup_insert_eq, ?Hst by done; done.
    + by rewrite Hst.
  - intros m. unfold send. by rewrite Hnone.
Qed.

(** * The hook *)

Lemma tracked_subscribe e cb hk e' :
  useWebSocket.tracked e' (useWebSocket.subscribe e cb hk)
  = if decide (e = e') then useWebSocket.tracked e hk ++ [cb]
    else useWebSocket.tracked e' hk.
Proof.
  unfold useWebSocket.tracked, useWebSocket.subscribe. simpl.
  destruct (useWebSocket.eventListeners hk !! e) as [arr|] eqn:He.
  - destruct (decide (e = e')) as [<-|Hne].
    + by rewrite lookup_alter_eq, He.
    + by rewrite lookup_alter_ne.
  - destruct (decide (e = e')) as [<-|Hne].
    + by rewrite lookup_alter_eq, lookup_insert_eq.
    + by rewrite lookup_alter_ne, lookup_insert_ne.
Qed.

Lemma tracked_unsubscribe e cb hk e' :
  useWebSocket.tracked e' (useWebSocket.unsubscribe e cb hk)
  = if decide (e = e') then spec_remove_all cb (useWebSocket.tracked e hk)
    else useWebSocket.tracked e' hk.
Proof.
  unfold useWebSocket.tracked, useWebSocket.unsubscribe. simpl.
  destruct (useWebSocket.eventListeners hk !! e) as [arr|] eqn:He.
  - destruct (decide (e = e')) as [<-|Hne].
    + rewrite lookup_insert_eq. simpl. apply filter_remove_all.
    + by rewrite lookup_insert_ne.
  - destruct (decide (e = e')) as [<-|Hne]; [by rewrite He|done].
Qed.

Lemma hook_op_mirrors o hk e :
  wf (useWebSocket.service hk) →
  useWebSocket.tracked e hk = subscribers e (useWebSocket.service hk) →
  wf (useWebSocket.service (apply_hook_op o hk))
  ∧ useWebSocket.tracked e (apply_hook_op o hk)
    = subscribers e (useWebSocket.service (apply_hook_op o hk)).
Proof.
  intros Hwf Heq. destruct o as [e' cb|e' cb]; simpl.
  - split; [by apply wf_on|].
    rewrite tracked_subscribe, subscribers_on by done.
    destruct (decide (e' = e)) as [->|]; [by rewrite Heq|done].
  - split; [by apply wf_off|].
    rewrite tracked_unsubscribe, subscribers_off by done.
    destruct (decide (e' = e)) as [->|]; [by rewrite Heq|done].
Qed.

(** X11. The table the hook keeps mirrors the service: if the list the
    hook tracks for [e] equals the service's subscriber list of [e], it
    still does after any sequence of [subscribe] and [unsubscribe] calls
    through the hook, for whatever events. Right after the mount effect
    on a new service this holds for every event but the two internal
    ones, whose listeners the hook does not track. *)
Theorem hook_table_mirrors_service host ops e :
  (∀ hk,
     wf (useWebSocket.service hk) →
     useWebSocket.tracked e hk = subscribers e (useWebSocket.service hk) →
     useWebSocket.tracked e (fold_left (λ h o, apply_hook_op o h) ops hk)
     = subscribers e
         (useWebSocket.service (fold_left (λ h o, apply_hook_op o h) ops hk)))
  ∧ (∀ handleConnect handleDisconnect,
       e ≠ "connected" → e ≠ "disconnected" →
       let hk0 := useWebSocket.mkHook
                    (useWebSocket.effect host handleConnect handleDisconnect init) ∅ in
       useWebSocket.tracked e (fold_left (λ h o, apply_hook_op o h) ops hk0)
       = subscribers e
           (useWebSocket.service (fold_left (λ h o, apply_hook_op o h) ops hk0))).
Proof.
  assert (∀ hk,
     wf (useWebSocket.service hk) →
     useWebSocket.tracked e hk = subscribers e (useWebSocket.service hk) →
     useWebSocket.tracked e (fold_left (λ h o, apply_hook_op o h) ops hk)
     = subscribers e
         (useWebSocket.service (fold_left (λ h o, apply_hook_op o h) ops hk)))
    as Hgen.
  { induction ops as [|o ops IH]; intros hk Hwf Heq; simpl; [done|].
    destruct (hook_op_mirrors o hk e Hwf Heq) as [Hwf' Heq']. by apply IH. }
  split; [exact Hgen|].
  intros hc hd Hc Hd hk0. apply Hgen.
  - unfold hk0, useWebSocket.effect. simpl. apply wf_on, wf_on.
    eapply wf_same; [apply listeners_connect|apply heap_connect|apply wf_init].
  - unfold hk0, useWebSocket.effect, useWebSocket.tracked. simpl.
    rewrite lookup_empty. simpl.
    assert (wf (connect host init)) as Hwf0
      by (eapply wf_same; [apply listeners_connect|apply heap_connect|apply wf_init]).
    rewrite subscribers_on by (by apply wf_on).
    rewrite decide_False by done.
    rewrite subscribers_on by done. rewrite decide_False by done.
    unfold subscribers. by rewrite listeners_connect.
Qed.

(** X12. Mounting and unmounting the hook does not leave the service as
    it was: the socket the effect created is closing, [this.ws] is null,
    and every subscription is gone, also those other consumers had made.
    When the close event of that socket arrives, the retry policy runs:
    below five attempts a reconnect is scheduled although nobody is
    mounted. *)
Theorem effect_then_cleanup_leaves_closing_socket host hc hd s :
  new_WebSocket_ok host = true →
  let s' := useWebSocket.cleanup hc hd (useWebSocket.effect host hc hd s) in
  sockets s' = sockets s ++ [CLOSING]
  ∧ ws s' = None
  ∧ (∀ e, subscribers e s' = [])
  ∧ (reconnectAttempts s < maxReconnectAttempts →
       ∃ s2, handle_event host (EvClose (length (sockets s))) s' = Some (Ok s2)
         ∧ calls s2 = calls s
         ∧ scheduled s2
           = scheduled s ++ [reconnectDelay * (reconnectAttempts s + 1)]).
Proof.
  intros Hok s'.
  set (s1 := useWebSocket.effect host hc hd s).
  set (s2 := off "disconnected" hd (off "connected" hc s1)).
  assert (same_retry s s2) as Hsame.
  { unfold s2, s1, useWebSocket.effect.
    eapply same_retry_trans; [|apply same_retry_off].
    eapply same_retry_trans; [|apply same_retry_off].
    eapply same_retry_trans; [|apply same_retry_on].
    eapply same_retry_trans; [|apply same_retry_on].
    by apply same_retry_connect_ok. }
  assert (ws s2 = Some (length (sockets s))
          ∧ sockets s2 = sockets s ++ [CONNECTING]
          ∧ calls s2 = calls s) as (Hws & Hsock & Hcalls).
  { unfold s2, s1, useWebSocket.effect.
    assert (∀ e cb x, ws (on e cb x) = ws x) as Hwon
      by (intros; unfold on; by repeat case_match).
    assert (∀ e cb x, ws (off e cb x) = ws x) as Hwoff
      by (intros; unfold off; by case_match).
    rewrite !Hwoff, !Hwon, !sockets_off, !sockets_on, !calls_off, !calls_on.
    unfold connect. rewrite Hok. simpl. done. }
  assert (s' = set_listeners ∅ (set_ws None (ws_close (length (sockets s)) s2)))
    as Hs' by (unfold s', useWebSocket.cleanup, disconnect; fold s1; fold s2;
               by rewrite Hws).
  assert (sockets (ws_close (length (sockets s)) s2) = sockets s ++ [CLOSING]) as Hcl.
  { unfold ws_close. rewrite Hsock.
    rewrite lookup_app_r, Nat.sub_diag by lia. simpl.
    rewrite insert_app_r_alt, Nat.sub_diag by lia. done. }
  clearbody s' s2. subst s'. clear s1.
  destruct (same_retry_ws_close (length (sockets s)) s2) as (Ha & Hsch & Ht).
  destruct Hsame as (Ha2 & Hsch2 & Ht2).
  split; [exact Hcl|]. split; [done|]. split.
  { intros e. unfold subscribers. simpl. by rewrite lookup_empty. }
  intros Hlt. simpl. rewrite Hcl.
  rewrite lookup_app_r, Nat.sub_diag by lia. simpl.
  unfold onclose. rewrite emit_empty by done. simpl.
  eexists. split; [done|].
  rewrite calls_attemptReconnect. simpl. rewrite calls_ws_close.
  split; [exact Hcalls|].
  rewrite attemptReconnect_below_max by (simpl; by rewrite Ha, Ha2).
  simpl. by rewrite Ha, Hsch, Ha2, Hsch2.
Qed.

Lemma isConnected_step_other hc hd (subs : list nat) d : ∀ b,
  hc ∉ subs → hd ∉ subs →
  fold_left (useWebSocket.isConnected_step hc hd) (map (λ cb, (cb, d)) subs) b = b.
Proof.
  induction subs as [|c subs IH]; intros b H1 H2; [done|].
  apply not_elem_of_cons in H1 as [? ?]. apply not_elem_of_cons in H2 as [? ?].
  simpl. unfold useWebSocket.isConnected_step at 2. simpl.
  destruct (Nat.eqb_spec c hc); [congruence|].
  destruct (Nat.eqb_spec c hd); [congruence|]. by apply IH.
Qed.

Lemma isConnected_step_connect hc hd (subs : list nat) d : ∀ b,
  hc ∈ subs → hd ∉ subs →
  fold_left (useWebSocket.isConnected_step hc hd) (map (λ cb, (cb, d)) subs) b = true.
Proof.
  induction subs as [|c subs IH]; intros b H1 H2; [by apply elem_of_nil in H1|].
  apply not_elem_of_cons in H2 as [Hc H2].
  simpl. unfold useWebSocket.isConnected_step at 2. simpl.
  destruct (decide (hc ∈ subs)) as [Hin|Hnin]; [by apply IH|].
  apply elem_of_cons in H1 as [Heq|H1]; [subst c|done].
  rewrite Nat.eqb_refl. by apply isConnected_step_other.
Qed.

Lemma isConnected_step_disconnect hc hd (subs : list nat) d : ∀ b,
  hc ≠ hd → hd ∈ subs → hc ∉ subs →
  fold_left (useWebSocket.isConnected_step hc hd) (map (λ cb, (cb, d)) subs) b = false.
Proof.
  induction subs as [|c subs IH]; intros b Hne H1 H2; [by apply elem_of_nil in H1|].
  apply not_elem_of_cons in H2 as [Hc H2].
  simpl. unfold useWebSocket.isConnected_step at 2. simpl.
  destruct (decide (hd ∈ subs)) as [Hin|Hnin]; [by apply IH|].
  apply elem_of_cons in H1 as [Heq|H1]; [subst c|done].
  destruct (Nat.eqb_spec hd hc); [congruence|].
  rewrite Nat.eqb_refl. by apply isConnected_step_other.
Qed.

(** X13. While the two internal listeners are registered where the
    effect put them ([handleConnect] on [connected] only,
    [handleDisconnect] on [disconnected] only) and the subscribers of
    those events return normally, [isConnected.current] follows the
    transport: it is [true] after every open event and [false] after
    every close event. *)
Theorem isConnected_follows_transport host hc hd s h r :
  hc ≠ hd →
  (handle_event host (EvOpen h) s = Some r →
   hc ∈ subscribers "connected" s → hd ∉ subscribers "connected" s →
   (∀ cb, cb ∈ subscribers "connected" s → polite host cb) →
   useWebSocket.isConnected_current hc hd (calls (state_of r)) = true)
  ∧ (handle_event host (EvClose h) s = Some r →
     hd ∈ subscribers "disconnected" s → hc ∉ subscribers "disconnected" s →
     (∀ cb, cb ∈ subscribers "disconnected" s → polite host cb) →
     useWebSocket.isConnected_current hc hd (calls (state_of r)) = false).
Proof.
  intros Hne. split.
  - intros Hr Hin Hnin Hpol. simpl in Hr.
    destruct (sockets s !! h) as [[]|]; try done. injection Hr as <-.
    unfold onopen.
    destruct (emit_pass host "connected" Null
                (set_reconnectAttempts 0 (set_sockets (<[h:=OPEN]> (sockets s)) s)))
      as (s1 & -> & Hc1 & _); [exact Hpol|].
    simpl in *. unfold useWebSocket.isConnected_current.
    rewrite Hc1, fold_left_app. by apply isConnected_step_connect.
  - intros Hr Hin Hnin Hpol. simpl in Hr.
    assert (r = onclose host (set_sockets (<[h:=CLOSED]> (sockets s)) s)) as ->
      by (destruct (sockets s !! h) as [[]|]; try done; congruence).
    unfold onclose.
    destruct (emit_pass host "disconnected" Null
                (set_sockets (<[h:=CLOSED]> (sockets s)) s))
      as (s1 & -> & Hc1 & _); [exact Hpol|].
    simpl in *. rewrite calls_attemptReconnect.
    unfold useWebSocket.isConnected_current.
    rewrite Hc1, fold_left_app. by apply isConnected_step_disconnect.
Qed.

(** * The task list of the application *)

Lemma handleTaskUpdated_ids t ts :
  map App.id (App.handleTaskUpdated t ts) = map App.id ts.
Proof.
  unfold App.handleTaskUpdated. induction ts as [|x ts IH]; [done|]. simpl.
  rewrite IH. f_equal. by destruct (String.eqb_spec (App.id x) (App.id t)).
Qed.

Lemma handleTaskUpdated_absent t ts :
  App.id t ∉ map App.id ts → App.handleTaskUpdated t ts = ts.
Proof.
  unfold App.handleTaskUpdated. induction ts as [|x ts IH]; [done|]. simpl.
  intros [Hne Hnin]%not_elem_of_cons. rewrite IH by done.
  destruct (String.eqb_spec (App.id x) (App.id t)); [congruence|done].
Qed.

Lemma handleTaskDeleted_ids task_id ts :
  map App.id (App.handleTaskDeleted task_id ts)
  = filter (λ i, i ≠ task_id) (map App.id ts).
Proof.
  unfold App.handleTaskDeleted. induction ts as [|x ts IH]; [done|]. simpl.
  destruct (decide (App.id x = task_id)) as [Heq|Hne].
  - rewrite !filter_cons_False by (intros H; by apply H). exact IH.
  - rewrite !filter_cons_True by done. simpl. by rewrite IH.
Qed.

Lemma handleTaskDeleted_absent task_id ts :
  task_id ∉ map App.id ts → App.handleTaskDeleted task_id ts = ts.
Proof.
  unfold App.handleTaskDeleted. induction ts as [|x ts IH]; [done|]. simpl.
  intros [Hne Hnin]%not_elem_of_cons.
  rewrite filter_cons_True by congruence. by rewrite IH.
Qed.

(** X14. A [task_updated] event replaces, in place, every task that has
    the id of the incoming task by the incoming task, and touches no
    other: the list keeps its length and its sequence of ids. An update
    for an id that is not in the list is dropped; it is not inserted. *)
Theorem handleTaskUpdated_replaces_in_place t ts :
  length (App.handleTaskUpdated t ts) = length ts
  ∧ map App.id (App.handleTaskUpdated t ts) = map App.id ts
  ∧ (∀ i x, ts !! i = Some x →
       App.handleTaskUpdated t ts !! i
       = Some (if decide (App.id x = App.id t) then t else x))
  ∧ (App.id t ∉ map App.id ts → App.handleTaskUpdated t ts = ts).
Proof.
  split; [unfold App.handleTaskUpdated; apply List.length_map|].
  split; [apply handleTaskUpdated_ids|].
  split; [|apply handleTaskUpdated_absent].
  intros i x Hi. unfold App.handleTaskUpdated.
  change (map ?f ts) with (f <$> ts). rewrite list_lookup_fmap, Hi. simpl.
  f_equal. by destruct (String.eqb_spec (App.id x) (App.id t)); case_decide.
Qed.

(** X15. A [task_deleted] event removes every task with the given id
    and keeps the others in their order; afterwards no task has that id.
    Deleting again, or deleting an id that is not in the list, changes
    nothing. *)
Theorem handleTaskDeleted_removes_every_match task_id ts :
  (task_id ∉ map App.id (App.handleTaskDeleted task_id ts))
  ∧ (∀ x, x ∈ App.handleTaskDeleted task_id ts ↔ x ∈ ts ∧ App.id x ≠ task_id)
  ∧ App.handleTaskDeleted task_id ts `sublist_of` ts
  ∧ App.handleTaskDeleted task_id (App.handleTaskDeleted task_id ts)
    = App.handleTaskDeleted task_id ts
  ∧ (task_id ∉ map App.id ts → App.handleTaskDeleted task_id ts = ts).
Proof.
  assert (task_id ∉ map App.id (App.handleTaskDeleted task_id ts)) as Hnin.
  { rewrite handleTaskDeleted_ids. intros [Hne _]%list_elem_of_filter. by apply Hne. }
  split; [exact Hnin|]. split; [|split; [|split]].
  - intros x. unfold App.handleTaskDeleted. rewrite list_elem_of_filter. tauto.
  - apply sublist_filter.
  - by apply handleTaskDeleted_absent.
  - apply handleTaskDeleted_absent.
Qed.

(** X16. How the three events compose. Deleting a task right after it
    was created leaves the list as a delete alone would. An update that
    arrives after the delete of its task does not bring it back. Of two
    updates for one id the later wins. An update for a task that was
    just created with a new id replaces exactly that task. *)
Theorem task_events_compose t t' ts :
  App.handleTaskDeleted (App.id t) (App.handleTaskCreated t ts)
  = App.handleTaskDeleted (App.id t) ts
  ∧ App.handleTaskUpdated t (App.handleTaskDeleted (App.id t) ts)
    = App.handleTaskDeleted (App.id t) ts
  ∧ (App.id t' = App.id t →
     App.handleTaskUpdated t' (App.handleTaskUpdated t ts)
     = App.handleTaskUpdated t' ts)
  ∧ (App.id t' = App.id t → App.id t ∉ map App.id ts →
     App.handleTaskUpdated t' (App.handleTaskCreated t ts) = ts ++ [t']).
Proof.
  split; [|split; [|split]].
  - unfold App.handleTaskDeleted, App.handleTaskCreated.
    rewrite filter_app. rewrite (filter_cons_False _ t) by (intros H; by apply H).
    by rewrite filter_nil, app_nil_r.
  - apply handleTaskUpdated_absent.
    rewrite handleTaskDeleted_ids. intros [Hne _]%list_elem_of_filter. by apply Hne.
  - intros Heq. unfold App.handleTaskUpdated. rewrite map_map.
    apply map_ext. intros x. rewrite Heq.
    destruct (String.eqb_spec (App.id x) (App.id t)) as [Hx|Hx].
    + by rewrite String.eqb_refl.
    + by destruct (String.eqb_spec (App.id x) (App.id t)).
  - intros Heq Hnin. unfold App.handleTaskCreated.
    unfold App.handleTaskUpdated. rewrite map_app. simpl. f_equal.
    + apply (handleTaskUpdated_absent t' ts). by rewrite Heq.
    + by rewrite Heq, String.eqb_refl.
Qed.

(** X17. Task ids are used as list keys. Updates and deletes keep them
    pairwise distinct; a [task_created] event keeps them distinct
    exactly when its id is not in the list yet, since the handler
    appends without looking. *)
Theorem task_ids_stay_distinct t task_id ts :
  NoDup (map App.id ts) →
  NoDup (map App.id (App.handleTaskUpdated t ts))
  ∧ NoDup (map App.id (App.handleTaskDeleted task_id ts))
  ∧ (NoDup (map App.id (App.handleTaskCreated t ts)) ↔ App.id t ∉ map App.id ts).
Proof.
  intros Hnd. split; [by rewrite handleTaskUpdated_ids|]. split.
  - rewrite handleTaskDeleted_ids. by apply NoDup_filter.
  - unfold App.handleTaskCreated. rewrite map_app. simpl.
    rewrite NoDup_app. split.
    + intros (_ & Hdisj & _) Hin. apply (Hdisj _ Hin). left.
    + intros Hnin. split; [done|]. split.
      * intros x Hx [->|Hx']%elem_of_cons; [done|by apply elem_of_nil in Hx'].
      * apply NoDup_singleton.
Qed.

(** * The chat input *)

Lemma truthy_trimStart s :
  ChatInterface.truthy (ChatInterface.trimStart s)
  = existsb (λ c, negb (ChatInterface.is_whitespace c)) s.
Proof.
  induction s as [|c s IH]; [done|]. simpl.
  by destruct (ChatInterface.is_whitespace c).
Qed.

Lemma existsb_trimStart s :
  existsb (λ c, negb (ChatInterface.is_whitespace c)) (ChatInterface.trimStart s)
  = existsb (λ c, negb (ChatInterface.is_whitespace c)) s.
Proof.
  induction s as [|c s IH]; [done|]. simpl.
  destruct (ChatInterface.is_whitespace c) eqn:Hc; simpl; [done|by rewrite Hc].
Qed.

Lemma existsb_rev {A} (f : A → bool) (l : list A) :
  existsb f (rev l) = existsb f l.
Proof.
  induction l as [|x l IH]; [done|]. simpl.
  rewrite existsb_app, IH. simpl. rewrite orb_false_r. apply orb_comm.
Qed.

Lemma truthy_rev (s : list N) :
  ChatInterface.truthy (rev s) = ChatInterface.truthy s.
Proof.
  destruct s as [|c s]; [done|]. simpl. by destruct (rev s).
Qed.

(** [s.trim()] is not empty exactly when [s] has a code unit that is
    not white space. *)
Lemma truthy_trim s :
  ChatInterface.truthy (ChatInterface.trim s)
  = existsb (λ c, negb (ChatInterface.is_whitespace c)) s.
Proof.
  unfold ChatInterface.trim, ChatInterface.trimEnd.
  by rewrite truthy_rev, truthy_trimStart, existsb_rev, existsb_trimStart.
Qed.

Lemma handleSend_facts inputValue isProcessing :
  let out := ChatInterface.handleSend inputValue isProcessing in
  (ChatInterface.sent out = [inputValue] ∧ ChatInterface.nextInput out = []
   ∨ ChatInterface.sent out = [] ∧ ChatInterface.nextInput out = inputValue)
  ∧ (ChatInterface.sent out = [inputValue]
     ↔ (∃ c, c ∈ inputValue ∧ ChatInterface.is_whitespace c = false)
       ∧ isProcessing = false).
Proof.
  unfold ChatInterface.handleSend. rewrite truthy_trim.
  destruct (existsb _ inputValue) eqn:Hex; simpl.
  - apply existsb_exists in Hex as (c & Hin & Hc).
    apply negb_true_iff in Hc. apply list_elem_of_In in Hin.
    destruct isProcessing; simpl.
    + split; [by right|]. split; [done|]. by intros [_ ?].
    + split; [by left|]. split; [|done]. intros _. split; [|done]. by exists c.
  - split; [by right|]. split; [done|].
    intros [(c & Hin & Hc) _]. apply list_elem_of_In in Hin.
    assert (existsb (λ c, negb (ChatInterface.is_whitespace c)) inputValue = true)
      as Habs by (apply existsb_exists; exists c; by rewrite Hc).
    congruence.
Qed.

(** X18. [handleSend] calls [onSendMessage] at most once, and only when
    the input has a character that is not white space and no request is
    being processed. It then passes the input as typed, not trimmed, and
    clears the field; otherwise it sends nothing and leaves the field as
    it is. *)
Theorem handleSend_sends_only_real_input inputValue isProcessing :
  let out := ChatInterface.handleSend inputValue isProcessing in
  (ChatInterface.sent out = [inputValue] ∧ ChatInterface.nextInput out = []
   ∨ ChatInterface.sent out = [] ∧ ChatInterface.nextInput out = inputValue)
  ∧ (ChatInterface.sent out = [inputValue]
     ↔ (∃ c, c ∈ inputValue ∧ ChatInterface.is_whitespace c = false)
       ∧ isProcessing = false).
Proof. apply handleSend_facts. Qed.

(** X19. A key press sends exactly when the key is Enter, Shift is not
    held, the input has a character that is not white space and no
    request is being processed; it then sends the input as typed and
    clears the field. Enter without Shift always prevents the default,
    also when nothing is sent; any other key, and Shift+Enter, is left to
    the text area, which then inserts the character or the line break. *)
Theorem handleKeyPress_sends_on_plain_enter isEnter shiftKey inputValue isProcessing :
  let out := ChatInterface.handleKeyPress isEnter shiftKey inputValue isProcessing in
  (ChatInterface.sent out = [inputValue] ∧ ChatInterface.nextInput out = []
   ∨ ChatInterface.sent out = [] ∧ ChatInterface.nextInput out = inputValue)
  ∧ (ChatInterface.sent out = [inputValue]
     ↔ isEnter = true ∧ shiftKey = false
       ∧ (∃ c, c ∈ inputValue ∧ ChatInterface.is_whitespace c = false)
       ∧ isProcessing = false)
  ∧ (ChatInterface.defaultPrevented out = true
     ↔ isEnter = true ∧ shiftKey = false).
Proof.
  destruct (handleSend_facts inputValue isProcessing) as [Hcases Hiff].
  unfold ChatInterface.handleKeyPress.
  destruct isEnter, shiftKey; simpl.
  - split; [by right|]. split; [|split; [done|by intros [_ ?]]].
    split; [done|]. by intros (_ & ? & _).
  - split; [exact Hcases|]. split; [|done].
    rewrite Hiff. tauto.
  - split; [by right|]. split; [|split; [done|by intros [? _]]].
    split; [done|]. by intros (? & _).
  - split; [by right|]. split; [|split; [done|by intros [? _]]].
    split; [done|]. by intros (? & _).
Qed.

(** * The further properties at work *)

(** After five failed reconnects the table and the handle are in order. *)
Lemma reachable_states_are_well_formed_witness :
  reachable plain_host gave_up_state
  ∧ wf gave_up_state ∧ ws_is_latest gave_up_state.
Proof.
  assert (reachable plain_host gave_up_state) as Hreach.
  { exists ([ApiConnect; EvOpen 0%nat] ++ six_failures). vm_compute. reflexivity. }
  split; [exact Hreach|].
  exact (reachable_states_are_well_formed plain_host gave_up_state Hreach).
Defined.

(** The delays of the five failed reconnects. *)
Lemma scheduled_delays_are_bounded_witness :
  reachable plain_host retrying_state
  ∧ Forall (λ d, d ∈ backoff_delays) (scheduled retrying_state)
  ∧ Forall (λ d, 1000 ≤ d ≤ 5000) (timers retrying_state)
  ∧ timers retrying_state `sublist_of` scheduled retrying_state.
Proof.
  assert (reachable plain_host retrying_state) as Hreach.
  { exists [ApiConnect; EvOpen 0%nat; EvClose 0%nat]. vm_compute. reflexivity. }
  split; [exact Hreach|].
  exact (scheduled_delays_are_bounded plain_host retrying_state Hreach).
Defined.

(** The one frame sent went to socket 0, which is open. *)
Lemma frames_go_to_opened_sockets_witness :
  reachable plain_host sent_state
  ∧ (0%nat, "{}") ∈ wire sent_state
  ∧ ∃ st, sockets sent_state !! 0%nat = Some st ∧ st ≠ CONNECTING.
Proof.
  assert (reachable plain_host sent_state) as Hreach.
  { exists [ApiConnect; EvOpen 0%nat; ApiSend (Text "hello")].
    vm_compute. reflexivity. }
  assert ((0%nat, "{}") ∈ wire sent_state) as Hin.
  { apply (bool_decide_unpack _). vm_compute. exact I. }
  split; [exact Hreach|]. split; [exact Hin|].
  exact (frames_go_to_opened_sockets plain_host sent_state 0%nat "{}" Hreach Hin).
Defined.

Lemma wf_three_subscribers : wf three_subscribers.
Proof. unfold three_subscribers. apply wf_on, wf_on, wf_on, wf_init. Defined.

(** Removing the middle one of three subscribers. *)
Lemma off_removes_every_registration_witness :
  wf three_subscribers
  ∧ subscribers "update" (off "update" 1%nat three_subscribers) = [0%nat; 2%nat].
Proof.
  split; [exact wf_three_subscribers|].
  exact (proj1 (off_removes_every_registration "update" 1%nat three_subscribers
                  wf_three_subscribers)).
Defined.

(** Subscribing callback 1 again and unsubscribing it removes both of
    its registrations. *)
Lemma on_then_off_witness :
  wf three_subscribers
  ∧ finds_inherited "update" three_subscribers = false
  ∧ subscribers "update" (off "update" 1%nat (on "update" 1%nat three_subscribers))
    = [0%nat; 2%nat].
Proof.
  assert (finds_inherited "update" three_subscribers = false) as He by reflexivity.
  split; [exact wf_three_subscribers|]. split; [exact He|].
  exact (proj1 (proj2 (proj2 (on_then_off "update" 1%nat three_subscribers
                                wf_three_subscribers He)))).
Defined.

Lemma throwing_host_rude d : rude throwing_host 1%nat d.
Proof. intros hist. reflexivity. Defined.

Lemma throwing_host_polite_0 : ∀ c, c ∈ [0%nat] → polite throwing_host c.
Proof.
  intros c Hc d hist. apply list_elem_of_singleton in Hc. subst c. reflexivity.
Defined.

(** Callback 1 throws: callback 2 is not invoked. *)
Lemma emit_stops_at_first_throwing_subscriber_witness :
  subscribers "update" three_subscribers = [0%nat] ++ 1%nat :: [2%nat]
  ∧ (∀ c, c ∈ [0%nat] → polite throwing_host c)
  ∧ rude throwing_host 1%nat Null
  ∧ ∃ s', emit throwing_host "update" Null three_subscribers = Throw s'
      ∧ calls s' = [(0%nat, Null); (1%nat, Null)].
Proof.
  assert (subscribers "update" three_subscribers = [0%nat] ++ 1%nat :: [2%nat])
    as H1 by reflexivity.
  split; [exact H1|]. split; [exact throwing_host_polite_0|].
  split; [exact (throwing_host_rude Null)|].
  exact (emit_stops_at_first_throwing_subscriber throwing_host "update" Null
           three_subscribers [0%nat] 1%nat [2%nat] H1 throwing_host_polite_0
           (throwing_host_rude Null)).
Defined.

(** The close of the only socket, with a throwing subscriber. *)
Lemma throwing_disconnected_subscriber_prevents_reconnect_witness :
  reachable throwing_host before_close
  ∧ ∃ r, handle_event throwing_host (EvClose 0%nat) before_close = Some r
      ∧ subscribers "disconnected" before_close = [0%nat] ++ 1%nat :: [2%nat]
      ∧ scheduled (state_of r) = []
      ∧ reconnectAttempts (state_of r) = 0.
Proof.
  assert (reachable throwing_host before_close) as Hreach.
  { exists [ApiOn "disconnected" 0%nat; ApiOn "disconnected" 1%nat;
            ApiOn "disconnected" 2%nat; ApiConnect].
    vm_compute. reflexivity. }
  split; [exact Hreach|].
  set (r := default (Ok init) (handle_event throwing_host (EvClose 0%nat) before_close)).
  assert (handle_event throwing_host (EvClose 0%nat) before_close = Some r) as Hr
    by (vm_compute; reflexivity).
  assert (subscribers "disconnected" before_close = [0%nat] ++ 1%nat :: [2%nat])
    as Hs by (vm_compute; reflexivity).
  destruct (throwing_disconnected_subscriber_prevents_reconnect throwing_host
              before_close 0%nat r [0%nat] 1%nat [2%nat] Hreach Hr Hs
              throwing_host_polite_0 (throwing_host_rude Null))
    as (_ & Hsch & _ & Ha).
  exists r. split; [exact Hr|]. split; [exact Hs|].
  split; [exact Hsch|exact Ha].
Defined.

(** A frame arriving on the open socket of [sent_state]. *)
Lemma onmessage_never_throws_witness :
  reachable plain_host sent_state
  ∧ ∃ r, handle_event plain_host
           (EvMessage 0%nat (Some ("task_created", Text "t1"))) sent_state = Some r
      ∧ ∃ s', r = Ok s'.
Proof.
  assert (reachable plain_host sent_state) as Hreach.
  { exists [ApiConnect; EvOpen 0%nat; ApiSend (Text "hello")].
    vm_compute. reflexivity. }
  split; [exact Hreach|].
  set (r := default (Ok init)
              (handle_event plain_host
                 (EvMessage 0%nat (Some ("task_created", Text "t1"))) sent_state)).
  assert (handle_event plain_host
            (EvMessage 0%nat (Some ("task_created", Text "t1"))) sent_state = Some r)
    as Hr by (vm_compute; reflexivity).
  exists r. split; [exact Hr|].
  exact (proj1 (onmessage_never_throws plain_host sent_state 0%nat _ r Hreach Hr)).
Defined.

(** [disconnect()] while the first reconnect is pending. *)
Lemma disconnect_keeps_pending_timers_witness :
  timers retrying_state !! 0%nat = Some 1000
  ∧ timers (disconnect retrying_state) = [1000]
  ∧ reconnectAttempts (disconnect retrying_state) = 1.
Proof.
  assert (timers retrying_state !! 0%nat = Some 1000) as H1 by reflexivity.
  split; [exact H1|].
  destruct (disconnect_keeps_pending_timers plain_host retrying_state 0%nat 1000 H1)
    as (Ht & _ & Ha & _).
  split; [exact Ht|exact Ha].
Defined.

(** The socket of a connected service after [disconnect()]. *)
Lemma disconnect_is_idempotent_witness :
  ws connected_state = Some 0%nat
  ∧ sockets (disconnect connected_state) !! 0%nat ≠ Some OPEN
  ∧ disconnect (disconnect connected_state) = disconnect connected_state.
Proof.
  assert (ws connected_state = Some 0%nat) as H1 by reflexivity.
  destruct (disconnect_is_idempotent plain_host connected_state)
    as (Hid & _ & Hsock & _).
  split; [exact H1|]. split; [exact (proj1 (Hsock 0%nat H1))|exact Hid].
Defined.

(** The hook's table after [sample_ops] through a freshly mounted hook. *)
Lemma hook_table_mirrors_service_witness :
  "update" ≠ "connected" ∧ "update" ≠ "disconnected"
  ∧ useWebSocket.tracked "update"
      (fold_left (λ h o, apply_hook_op o h) sample_ops
         (useWebSocket.mkHook mounted_state ∅))
    = subscribers "update"
        (useWebSocket.service
           (fold_left (λ h o, apply_hook_op o h) sample_ops
              (useWebSocket.mkHook mounted_state ∅))).
Proof.
  assert ("update" ≠ "connected") as H1 by discriminate.
  assert ("update" ≠ "disconnected") as H2 by discriminate.
  split; [exact H1|]. split; [exact H2|].
  exact (proj2 (hook_table_mirrors_service plain_host sample_ops "update")
           10%nat 11%nat H1 H2).
Defined.

(** Mount and unmount on a new service. *)
Lemma effect_then_cleanup_leaves_closing_socket_witness :
  new_WebSocket_ok plain_host = true
  ∧ reconnectAttempts init < maxReconnectAttempts
  ∧ sockets (useWebSocket.cleanup 10%nat 11%nat mounted_state) = [CLOSING]
  ∧ ∃ s2, handle_event plain_host (EvClose 0%nat)
            (useWebSocket.cleanup 10%nat 11%nat mounted_state) = Some (Ok s2)
      ∧ scheduled s2 = [1000].
Proof.
  assert (new_WebSocket_ok plain_host = true) as H1 by reflexivity.
  assert (reconnectAttempts init < maxReconnectAttempts) as H2 by reflexivity.
  split; [exact H1|]. split; [exact H2|].
  destruct (effect_then_cleanup_leaves_closing_socket plain_host 10%nat 11%nat
              init H1) as (Hs & _ & _ & Hclose).
  split; [exact Hs|].
  destruct (Hclose H2) as (s2 & Hev & _ & Hsch).
  exists s2. split; [exact Hev|exact Hsch].
Defined.

(** The first open after mounting. *)
Lemma isConnected_follows_transport_witness :
  10%nat ≠ 11%nat
  ∧ ∃ r, handle_event plain_host (EvOpen 0%nat) mounted_state = Some r
      ∧ (10%nat ∈ subscribers "connected" mounted_state)
      ∧ (11%nat ∉ subscribers "connected" mounted_state)
      ∧ useWebSocket.isConnected_current 10%nat 11%nat (calls (state_of r)) = true.
Proof.
  assert (10%nat ≠ 11%nat) as Hne by discriminate.
  split; [exact Hne|].
  set (r := default (Ok init) (handle_event plain_host (EvOpen 0%nat) mounted_state)).
  assert (handle_event plain_host (EvOpen 0%nat) mounted_state = Some r) as Hr
    by (vm_compute; reflexivity).
  assert (10%nat ∈ subscribers "connected" mounted_state) as Hin.
  { apply (bool_decide_unpack _). vm_compute. exact I. }
  assert (11%nat ∉ subscribers "connected" mounted_state) as Hnin.
  { apply (bool_decide_unpack _). vm_compute. exact I. }
  exists r. split; [exact Hr|]. split; [exact Hin|]. split; [exact Hnin|].
  exact (proj1 (isConnected_follows_transport plain_host 10%nat 11%nat
                  mounted_state 0%nat r Hne) Hr Hin Hnin (λ _ _ _ _, eq_refl)).
Defined.

(** Renaming the second of three tasks. *)
Lemma handleTaskUpdated_replaces_in_place_witness :
  sample_tasks !! 1%nat = Some (sample_task "t2" "second")
  ∧ App.handleTaskUpdated (sample_task "t2" "renamed") sample_tasks !! 1%nat
    = Some (sample_task "t2" "renamed")
  ∧ (App.id (sample_task "t9" "unknown") ∉ map App.id sample_tasks)
  ∧ App.handleTaskUpdated (sample_task "t9" "unknown") sample_tasks = sample_tasks.
Proof.
  assert (sample_tasks !! 1%nat = Some (sample_task "t2" "second")) as H1
    by reflexivity.
  assert (App.id (sample_task "t9" "unknown") ∉ map App.id sample_tasks) as H2.
  { apply (bool_decide_unpack _). vm_compute. exact I. }
  destruct (handleTaskUpdated_replaces_in_place (sample_task "t2" "renamed")
              sample_tasks) as (_ & _ & Hat & _).
  destruct (handleTaskUpdated_replaces_in_place (sample_task "t9" "unknown")
              sample_tasks) as (_ & _ & _ & Habs).
  split; [exact H1|]. split; [exact (Hat 1%nat _ H1)|].
  split; [exact H2|exact (Habs H2)].
Defined.

(** Deleting an id that is not in the list. *)
Lemma handleTaskDeleted_removes_every_match_witness :
  ("t9" ∉ map App.id sample_tasks)
  ∧ App.handleTaskDeleted "t9" sample_tasks = sample_tasks.
Proof.
  assert ("t9" ∉ map App.id sample_tasks) as H1.
  { apply (bool_decide_unpack _). vm_compute. exact I. }
  split; [exact H1|].
  destruct (handleTaskDeleted_removes_every_match "t9" sample_tasks)
    as (_ & _ & _ & _ & Habs).
  exact (Habs H1).
Defined.

(** Two updates for task [t2]. *)
Lemma task_events_compose_witness :
  App.id (sample_task "t2" "later") = App.id (sample_task "t2" "renamed")
  ∧ App.handleTaskUpdated (sample_task "t2" "later")
      (App.handleTaskUpdated (sample_task "t2" "renamed") sample_tasks)
    = App.handleTaskUpdated (sample_task "t2" "later") sample_tasks.
Proof.
  assert (App.id (sample_task "t2" "later") = App.id (sample_task "t2" "renamed"))
    as H1 by reflexivity.
  split; [exact H1|].
  destruct (task_events_compose (sample_task "t2" "renamed")
              (sample_task "t2" "later") sample_tasks) as (_ & _ & Hupd & _).
  exact (Hupd H1).
Defined.

(** The ids of the three sample tasks are distinct, and stay so. *)
Lemma task_ids_stay_distinct_witness :
  NoDup (map App.id sample_tasks)
  ∧ NoDup (map App.id (App.handleTaskDeleted "t1" sample_tasks))
  ∧ ¬ NoDup (map App.id (App.handleTaskCreated (sample_task "t1" "again") sample_tasks)).
Proof.
  assert (NoDup (map App.id sample_tasks)) as H1.
  { apply (bool_decide_unpack _). vm_compute. exact I. }
  destruct (task_ids_stay_distinct (sample_task "t1" "again") "t1" sample_tasks H1)
    as (_ & Hdel & Hcre).
  split; [exact H1|]. split; [exact Hdel|].
  intros Hnd. apply (proj1 Hcre Hnd). left.
Defined.

(** Sending [hi]; a line of blanks is not sent. *)
Lemma handleSend_sends_only_real_input_witness :
  (∃ c, c ∈ [0x68; 0x69]%N ∧ ChatInterface.is_whitespace c = false)
  ∧ ChatInterface.sent (ChatInterface.handleSend [0x68; 0x69]%N false)
    = [[0x68; 0x69]%N]
  ∧ ChatInterface.sent (ChatInterface.handleSend [0x20; 0x0A; 0xA0]%N false) = [].
Proof.
  assert (∃ c, c ∈ [0x68; 0x69]%N ∧ ChatInterface.is_whitespace c = false) as H1.
  { exists 0x68%N. split; [left|reflexivity]. }
  split; [exact H1|]. split.
  - exact (proj2 (proj2 (handleSend_sends_only_real_input [0x68; 0x69]%N false))
             (conj H1 eq_refl)).
  - reflexivity.
Defined.

(** Enter sends [hi]; Shift+Enter does not. *)
Lemma handleKeyPress_sends_on_plain_enter_witness :
  (∃ c, c ∈ [0x68; 0x69]%N ∧ ChatInterface.is_whitespace c = false)
  ∧ ChatInterface.sent (ChatInterface.handleKeyPress true false [0x68; 0x69]%N false)
    = [[0x68; 0x69]%N]
  ∧ ChatInterface.defaultPrevented
      (ChatInterface.handleKeyPress true true [0x68; 0x69]%N false) ≠ true.
Proof.
  assert (∃ c, c ∈ [0x68; 0x69]%N ∧ ChatInterface.is_whitespace c = false) as H1.
  { exists 0x68%N. split; [left|reflexivity]. }
  split; [exact H1|]. split.
  - exact (proj2 (proj1 (proj2 (handleKeyPress_sends_on_plain_enter true false
                                   [0x68; 0x69]%N false)))
             (conj eq_refl (conj eq_refl (conj H1 eq_refl)))).
  - intros Habs.
    destruct (proj1 (proj2 (proj2 (handleKeyPress_sends_on_plain_enter true true
                                     [0x68; 0x69]%N false))) Habs) as [_ Hshift].
    discriminate Hshift.
Defined.

(** * More on dispatch and on failing connections *)

Lemma set_calls_same s : set_calls (calls s) s = s.
Proof. by destruct s. Qed.

Lemma forEach_from_passive host l d arr n : ∀ k s,
  heap s !! l = Some arr →
  (k + n = length arr)%nat →
  (∀ cb d' hist, cb ∈ arr → callback host cb d' hist = []) →
  forEach_from host n k l d s
  = Ok (set_calls (calls s ++ map (λ cb, (cb, d)) (drop k arr)) s).
Proof.
  induction n as [|n IH]; intros k s Hl Hlen Hpass; simpl.
  - rewrite drop_ge by lia. simpl. by rewrite app_nil_r, set_calls_same.
  - destruct (lookup_lt_is_Some_2 arr k) as [cb Hcb]; [lia|].
    rewrite Hl. simpl. rewrite Hcb. unfold invoke.
    rewrite Hpass by (by eapply list_elem_of_lookup_2). simpl.
    rewrite IH by (done || lia). simpl.
    rewrite (drop_S _ _ _ Hcb). simpl. by rewrite <- app_assoc.
Qed.

(** X20. Subscribers that call nothing on the service, as the handlers
    of the application do, leave the service exactly as it was: a pass
    of [emit(e, d)] only adds its invocations to the log. The lookup of
    [e] is assumed not to find an inherited member ([constructor],
    [toString], ...), for which [emit] throws a [TypeError]. *)
Theorem emit_with_passive_subscribers host e d s :
  finds_inherited e s = false →
  (∀ cb d' hist, cb ∈ subscribers e s → callback host cb d' hist = []) →
  emit host e d s
  = Ok (set_calls (calls s ++ map (λ cb, (cb, d)) (subscribers e s)) s).
Proof.
  unfold subscribers, emit, forEach. intros _ Hpass.
  destruct (listeners s !! e) as [l|];
    [|simpl; by rewrite app_nil_r, set_calls_same].
  destruct (heap s !! l) as [arr|] eqn:Hl; simpl in *.
  - rewrite (forEach_from_passive host l d arr (length arr) 0 s Hl) by (done || lia).
    by rewrite drop_0.
  - by rewrite app_nil_r, set_calls_same.
Qed.

Lemma grows_invoke host cb d s : grows s (state_of (invoke host cb d s)).
Proof.
  unfold invoke.
  eapply grows_trans; [|apply grows_script]. by apply grows_heap_eq.
Qed.

(** The loop of [forEach] carries a property of the state from one
    invocation to the next. *)
Lemma forEach_from_invariant host l d arr (P : nat → State → Prop) n : ∀ k s ext,
  heap s !! l = Some (arr ++ ext) →
  (k + n = length arr)%nat →
  P k s →
  (∀ k c s, arr !! k = Some c → P k s →
     ∃ s1, invoke host c d s = Ok s1 ∧ P (S k) s1) →
  ∃ s', forEach_from host n k l d s = Ok s' ∧ P (length arr) s'.
Proof.
  induction n as [|n IH]; intros k s ext Hl Hlen HP Hstep; simpl.
  - exists s. split; [done|]. by replace (length arr) with k by lia.
  - destruct (lookup_lt_is_Some_2 arr k) as [c Hc]; [lia|].
    rewrite Hl. simpl. rewrite (lookup_app_l_Some _ _ _ _ Hc).
    destruct (Hstep k c s Hc HP) as (s1 & Hs1 & HP1).
    pose proof (grows_invoke host c d s) as Hg. rewrite Hs1 in Hg |- *. simpl in *.
    destruct (Hg _ _ Hl) as [ext1 Hl1]. rewrite <- app_assoc in Hl1.
    apply (IH (S k) s1 (ext ++ ext1)); [done|lia|done|done].
Qed.

Lemma filter_filter_same cb (l : list nat) :
  filter (λ c, c ≠ cb) (filter (λ c, c ≠ cb) l) = filter (λ c, c ≠ cb) l.
Proof.
  apply filter_absent. intros [Hne _]%list_elem_of_filter. by apply Hne.
Qed.

(** X21. A callback may unsubscribe itself while it is dispatched: if
    [cb] calls [off(e, cb)] when invoked and the other subscribers of
    [e] call nothing, the pass still invokes every subscriber it found,
    [cb] included, once per registration; afterwards [cb] is no longer
    subscribed to [e], the others are, in their order, and the next
    [emit(e, _)] invokes only them. *)
Theorem self_unsubscribe_takes_effect_next_pass host e d d2 s cb :
  wf s →
  cb ∈ subscribers e s →
  (∀ d' hist, callback host cb d' hist = [COff e cb]) →
  (∀ c d' hist, c ∈ subscribers e s → c ≠ cb → callback host c d' hist = []) →
  ∃ s', emit host e d s = Ok s'
    ∧ calls s' = calls s ++ map (λ c, (c, d)) (subscribers e s)
    ∧ subscribers e s' = filter (λ c, c ≠ cb) (subscribers e s)
    ∧ ∃ s'', emit host e d2 s' = Ok s''
        ∧ calls s'' = calls s' ++ map (λ c, (c, d2))
                                    (filter (λ c, c ≠ cb) (subscribers e s)).
Proof.
  intros Hwf Hin Hcb Hothers.
  assert (∃ l, listeners s !! e = Some l ∧ heap s !! l = Some (subscribers e s))
    as (l & He & Hl).
  { unfold subscribers in *. destruct (listeners s !! e) as [l|];
      [|by apply elem_of_nil in Hin].
    exists l. split; [done|]. destruct (heap s !! l); [done|].
    by apply elem_of_nil in Hin. }
  set (arr := subscribers e s) in *.
  set (P := λ (k : nat) (x : State),
         wf x
         ∧ calls x = calls s ++ map (λ c, (c, d)) (take k arr)
         ∧ subscribers e x
           = if decide (cb ∈ take k arr) then filter (λ c, c ≠ cb) arr else arr).
  destruct (forEach_from_invariant host l d arr P (length arr) 0 s [])
    as (s' & Hs' & Hwf' & Hc' & Hsub').
  { by rewrite app_nil_r. }
  { lia. }
  { split; [done|]. split; [simpl; by rewrite app_nil_r|].
    rewrite take_0. rewrite decide_False; [done|]. by intros ?%elem_of_nil. }
  { intros k c x Hc (Hwfx & Hcx & Hsx). unfold invoke.
    assert (c ∈ arr) as Hcin by (by eapply list_elem_of_lookup_2).
    assert (calls x ++ [(c, d)]
            = calls s ++ map (λ c, (c, d)) (take (S k) arr)) as Hlog.
    { rewrite Hcx, (take_S_r _ _ _ Hc), map_app. simpl. by rewrite <- app_assoc. }
    destruct (decide (c = cb)) as [->|Hne].
    - rewrite Hcb. simpl. eexists. split; [done|].
      split; [by apply wf_off|]. split; [by rewrite calls_off|].
      rewrite subscribers_off by done. rewrite decide_True by done.
      rewrite <- filter_remove_all.
      change (subscribers e (set_calls (calls x ++ [(cb, d)]) x))
        with (subscribers e x).
      rewrite Hsx, (take_S_r _ _ _ Hc).
      rewrite (decide_True (P := cb ∈ take k arr ++ [cb]))
        by (apply elem_of_app; right; left).
      destruct (decide (cb ∈ take k arr)); [apply filter_filter_same|done].
    - rewrite (Hothers c d (calls x) Hcin Hne). simpl. eexists. split; [done|].
      split; [done|]. split; [done|].
      change (subscribers e (set_calls (calls x ++ [(c, d)]) x))
        with (subscribers e x).
      rewrite Hsx, (take_S_r _ _ _ Hc).
      destruct (decide (cb ∈ take k arr)) as [Hk|Hk].
      + rewrite decide_True; [done|]. apply elem_of_app. by left.
      + rewrite decide_False; [done|].
        intros [?|Hx]%elem_of_app; [done|].
        apply list_elem_of_singleton in Hx. congruence. }
  rewrite firstn_all in Hc', Hsub'. rewrite decide_True in Hsub' by done.
  exists s'. split.
  { unfold emit, forEach. rewrite He, Hl. exact Hs'. }
  split; [exact Hc'|]. split; [exact Hsub'|].
  destruct (emit_pass host e d2 s') as (s'' & Hs'' & Hc'' & _).
  { rewrite Hsub'. intros c [Hne Hc]%list_elem_of_filter d' hist.
    by rewrite (Hothers c d' hist Hc Hne). }
  exists s''. split; [done|]. by rewrite Hc'', Hsub'.
Qed.




(** Three passive subscribers. *)
Lemma emit_with_passive_subscribers_witness :
  finds_inherited "update" three_subscribers = false
  ∧ (∀ cb d' hist, cb ∈ subscribers "update" three_subscribers →
       callback plain_host cb d' hist = [])
  ∧ emit plain_host "update" Null three_subscribers
    = Ok (set_calls [(0%nat, Null); (1%nat, Null); (2%nat, Null)] three_subscribers).
Proof.
  assert (finds_inherited "update" three_subscribers = false) as He by reflexivity.
  assert (∀ cb d' hist, cb ∈ subscribers "update" three_subscribers →
            callback plain_host cb d' hist = []) as H
    by (intros; reflexivity).
  split; [exact He|]. split; [exact H|].
  exact (emit_with_passive_subscribers plain_host "update" Null three_subscribers
           He H).
Defined.

(** Callback 1 unsubscribes itself during the first pass. *)
Lemma self_unsubscribe_takes_effect_next_pass_witness :
  wf three_subscribers
  ∧ (1%nat ∈ subscribers "update" three_subscribers)
  ∧ ∃ s', emit once_host "update" Null three_subscribers = Ok s'
      ∧ calls s' = [(0%nat, Null); (1%nat, Null); (2%nat, Null)]
      ∧ subscribers "update" s' = [0%nat; 2%nat].
Proof.
  assert (1%nat ∈ subscribers "update" three_subscribers) as Hin.
  { apply (bool_decide_unpack _). vm_compute. exact I. }
  assert (∀ c d' hist, c ∈ subscribers "update" three_subscribers → c ≠ 1%nat →
            callback once_host c d' hist = []) as Hothers.
  { intros c d' hist _ Hne. destruct c as [|[|c]]; [reflexivity|done|reflexivity]. }
  split; [exact wf_three_subscribers|]. split; [exact Hin|].
  destruct (self_unsubscribe_takes_effect_next_pass once_host "update" Null Null
              three_subscribers 1%nat wf_three_subscribers Hin
              (λ _ _, eq_refl) Hothers) as (s' & Hs' & Hc' & Hsub' & _).
  exists s'. split; [exact Hs'|]. split; [exact Hc'|exact Hsub'].
Defined.

